(** * a11y-live-announcer: the announcement store and its facade

    A shallow embedding of [src/index.tsx].  The provider component keeps
    four pieces of rendered text (two per ARIA live channel), two rotation
    cursors, two de-duplication memories and one timer handle.  React state
    setters and the host's timer functions are the only effects the code
    performs; they are modelled by a state monad over the store and the host
    that also records, per call, the sequence of effects it performed. *)

From Stdlib Require Import String ZArith List Bool Lia.
From Stdlib Require Import DecimalString.
Import ListNotations.
Local Open Scope string_scope.
Local Open Scope list_scope.

(** ** JavaScript values used by the source *)

(** [export type LiveAnnouncerPriority = "polite" | "assertive"] *)
Inductive LiveAnnouncerPriority : Type :=
| polite
| assertive.

(** [interface LiveAnnouncerOptions { priority?: ...; id?: string }].
    An absent (undefined) field is [None]. *)
Record LiveAnnouncerOptions : Type := mkOptions {
  opt_priority : option LiveAnnouncerPriority;
  opt_id : option string
}.

(** [interface AnnouncementState { message: string; id: string }] *)
Record AnnouncementState : Type := mkAnnouncementState {
  st_message : string;
  st_id : string
}.

(** Truthiness of a string: every string but the empty one. *)
Definition truthy (s : string) : bool := negb (s =? "").

(** Truthiness of [string | undefined]. *)
Definition truthy_opt (o : option string) : bool :=
  match o with
  | Some s => truthy s
  | None => false
  end.

(** [a === b] for [a : string] and [b : string | undefined]. *)
Definition strict_eq (a : string) (b : option string) : bool :=
  match b with
  | Some s => a =? s
  | None => false
  end.

(** [a !== b] for two values of type [string | undefined]. *)
Definition strict_neq_opt (a b : option string) : bool :=
  match a, b with
  | Some x, Some y => negb (x =? y)
  | None, None => false
  | _, _ => true
  end.

(** ** The host: clock, timers, randomness *)

(** Timer handles as browsers hand them out: integers greater than zero,
    so a handle is always truthy. *)
Definition Handle : Type := positive.

(** The only function the source ever passes to [setTimeout] is
    [() => { clearAnnouncements(); }]. *)
Inductive Callback : Type :=
| CbClearAnnouncements.

Record Timer : Type := mkTimer {
  timer_handle : Handle;
  timer_due : Z;
  timer_callback : Callback
}.

Record Host : Type := mkHost {
  clock : Z;                 (* Date.now() *)
  timers : list Timer;       (* pending timeouts, in scheduling order *)
  nextHandle : Handle;
  random : nat -> string;    (* k-th value of Math.random().toString(36).slice(2, 11) *)
  draws : nat
}.

(** ** The store held by one [LiveAnnouncerProvider] *)

Record Store : Type := mkStore {
  politeIndexRef : nat;
  assertiveIndexRef : nat;
  polite1 : string;
  polite2 : string;
  assertive1 : string;
  assertive2 : string;
  lastPoliteRef : AnnouncementState;
  lastAssertiveRef : AnnouncementState;
  clearTimeoutRef : option Handle
}.

Record World : Type := mkWorld {
  store : Store;
  host : Host
}.

(** The four rendered regions, named after their state variables. *)
Inductive Region : Type :=
| Polite1
| Polite2
| Assertive1
| Assertive2.

(** Calls that leave the provider's closure: React state setters and the
    host's timer functions. *)
Inductive Effect : Type :=
| SetText (r : Region) (v : string)
| ClearTimeout (h : Handle)
| SetTimeout (h : Handle) (cb : Callback) (delay : Z).

(** ** A state monad that logs effects *)

Definition M (A : Type) : Type := World -> A * World * list Effect.

Definition ret {A : Type} (a : A) : M A := fun w => (a, w, []).

Definition bind {A B : Type} (m : M A) (f : A -> M B) : M B :=
  fun w =>
    let '(a, w1, e1) := m w in
    let '(b, w2, e2) := f a w1 in
    (b, w2, e1 ++ e2).

Declare Scope announcer_scope.
Delimit Scope announcer_scope with announcer.
Notation "x <- c1 ;; c2" := (bind c1 (fun x => c2))
  (at level 61, c1 at next level, right associativity) : announcer_scope.
Notation "c1 ;; c2" := (bind c1 (fun _ => c2))
  (at level 61, right associativity) : announcer_scope.
Local Open Scope announcer_scope.

(** Final world and logged effects of a computation. *)
Definition exec {A : Type} (m : M A) (w : World) : World := snd (fst (m w)).
Definition effects {A : Type} (m : M A) (w : World) : list Effect := snd (m w).

Definition read {A : Type} (proj : Store -> A) : M A :=
  fun w => (proj (store w), w, []).

Definition modifyStore (f : Store -> Store) : M unit :=
  fun w => (tt, mkWorld (f (store w)) (host w), []).

Definition modifyHost (f : Host -> Host) : M unit :=
  fun w => (tt, mkWorld (store w) (f (host w)), []).

Definition emit (e : Effect) : M unit := fun w => (tt, w, [e]).

(** *** Field updates of the store *)

Definition set_politeIndexRef (v : nat) (s : Store) : Store :=
  mkStore v (assertiveIndexRef s) (polite1 s) (polite2 s) (assertive1 s)
    (assertive2 s) (lastPoliteRef s) (lastAssertiveRef s) (clearTimeoutRef s).

Definition set_assertiveIndexRef (v : nat) (s : Store) : Store :=
  mkStore (politeIndexRef s) v (polite1 s) (polite2 s) (assertive1 s)
    (assertive2 s) (lastPoliteRef s) (lastAssertiveRef s) (clearTimeoutRef s).

Definition set_polite1 (v : string) (s : Store) : Store :=
  mkStore (politeIndexRef s) (assertiveIndexRef s) v (polite2 s) (assertive1 s)
    (assertive2 s) (lastPoliteRef s) (lastAssertiveRef s) (clearTimeoutRef s).

Definition set_polite2 (v : string) (s : Store) : Store :=
  mkStore (politeIndexRef s) (assertiveIndexRef s) (polite1 s) v (assertive1 s)
    (assertive2 s) (lastPoliteRef s) (lastAssertiveRef s) (clearTimeoutRef s).

Definition set_assertive1 (v : string) (s : Store) : Store :=
  mkStore (politeIndexRef s) (assertiveIndexRef s) (polite1 s) (polite2 s) v
    (assertive2 s) (lastPoliteRef s) (lastAssertiveRef s) (clearTimeoutRef s).

Definition set_assertive2 (v : string) (s : Store) : Store :=
  mkStore (politeIndexRef s) (assertiveIndexRef s) (polite1 s) (polite2 s)
    (assertive1 s) v (lastPoliteRef s) (lastAssertiveRef s) (clearTimeoutRef s).

Definition set_lastPoliteRef (v : AnnouncementState) (s : Store) : Store :=
  mkStore (politeIndexRef s) (assertiveIndexRef s) (polite1 s) (polite2 s)
    (assertive1 s) (assertive2 s) v (lastAssertiveRef s) (clearTimeoutRef s).

Definition set_lastAssertiveRef (v : AnnouncementState) (s : Store) : Store :=
  mkStore (politeIndexRef s) (assertiveIndexRef s) (polite1 s) (polite2 s)
    (assertive1 s) (assertive2 s) (lastPoliteRef s) v (clearTimeoutRef s).

Definition set_clearTimeoutRef (v : option Handle) (s : Store) : Store :=
  mkStore (politeIndexRef s) (assertiveIndexRef s) (polite1 s) (polite2 s)
    (assertive1 s) (assertive2 s) (lastPoliteRef s) (lastAssertiveRef s) v.

(** *** React state setters: the new text is what the next render shows. *)

Definition setPolite1 (v : string) : M unit :=
  modifyStore (set_polite1 v) ;; emit (SetText Polite1 v).

Definition setPolite2 (v : string) : M unit :=
  modifyStore (set_polite2 v) ;; emit (SetText Polite2 v).

Definition setAssertive1 (v : string) : M unit :=
  modifyStore (set_assertive1 v) ;; emit (SetText Assertive1 v).

Definition setAssertive2 (v : string) : M unit :=
  modifyStore (set_assertive2 v) ;; emit (SetText Assertive2 v).

(** *** Host functions *)

(** The largest delay the host's timers hold: they keep the delay in a
    signed 32-bit integer. *)
Definition TIMEOUT_MAX : Z := 2147483647.

(** The delay the host really waits.  A delay above [TIMEOUT_MAX] does not
    fit and is replaced by 1 (as Node and the fake timers of the test suite
    do); a negative one counts as 0. *)
Definition hostDelay (delay : Z) : Z :=
  if (delay >? TIMEOUT_MAX)%Z then 1%Z else Z.max 0 delay.
Arguments hostDelay : simpl never.

(** [setTimeout(cb, delay)]: a fresh handle, due [hostDelay delay] after
    now.  The logged effect keeps the delay the caller passed. *)
Definition setTimeout (cb : Callback) (delay : Z) : M Handle :=
  fun w =>
    let h := host w in
    let t := mkTimer (nextHandle h) (clock h + hostDelay delay)%Z cb in
    (nextHandle h,
     mkWorld (store w)
       (mkHost (clock h) (timers h ++ [t]) (Pos.succ (nextHandle h))
          (random h) (draws h)),
     [SetTimeout (nextHandle h) cb delay]).

(** [clearTimeout(handle)]: drops the timer if it is still pending. *)
Definition clearTimeout (handle : Handle) : M unit :=
  modifyHost (fun h =>
    mkHost (clock h)
      (filter (fun t => negb (Pos.eqb (timer_handle t) handle)) (timers h))
      (nextHandle h) (random h) (draws h)) ;;
  emit (ClearTimeout handle).

(** Decimal rendering of [Date.now()]. *)
Definition string_of_Z (z : Z) : string := NilZero.string_of_int (Z.to_int z).

(** ** [LiveAnnouncerProvider]

    The closures the provider component creates.  The prop
    [clearOnUnmountDelay] (default 7000) is an explicit argument of the one
    closure that captures it. *)

Definition default_clearOnUnmountDelay : Z := 7000.

Module LiveAnnouncerProvider.

(** Values of the refs and state variables at mount:
    [useRef(0)], [useState("")], [useRef({ message: "", id: "" })],
    [useRef(null)]. *)
Definition initialStore : Store :=
  mkStore 0 0 "" "" "" "" (mkAnnouncementState "" "") (mkAnnouncementState "" "")
    None.

(** [`${Date.now()}-${Math.random().toString(36).slice(2, 11)}`] *)
Definition generateId : M string :=
  fun w =>
    let h := host w in
    ((string_of_Z (clock h) ++ "-" ++ random h (draws h))%string,
     mkWorld (store w)
       (mkHost (clock h) (timers h) (nextHandle h) (random h) (S (draws h))),
     []).

Definition clearAnnouncements : M unit :=
  setPolite1 "" ;;
  setPolite2 "" ;;
  setAssertive1 "" ;;
  setAssertive2 "" ;;
  modifyStore (set_lastPoliteRef (mkAnnouncementState "" "")) ;;
  modifyStore (set_lastAssertiveRef (mkAnnouncementState "" "")).

(** The tail of [announce], reached only when the call was not cut short
    by one of the two [return] statements:
    [if (clearOnUnmountDelay > 0) { if (ref.current) clearTimeout(ref.current);
       ref.current = setTimeout(() => { clearAnnouncements(); }, delay); }] *)
Definition rearmClearTimeout (clearOnUnmountDelay : Z) : M unit :=
  if (clearOnUnmountDelay >? 0)%Z then
    pending <- read clearTimeoutRef ;;
    match pending with
    | Some h => clearTimeout h
    | None => ret tt
    end ;;
    h' <- setTimeout CbClearAnnouncements clearOnUnmountDelay ;;
    modifyStore (set_clearTimeoutRef (Some h'))
  else ret tt.

Definition announce (clearOnUnmountDelay : Z) (message : string)
    (options : LiveAnnouncerOptions) : M unit :=
  let priority :=
    match opt_priority options with Some p => p | None => polite end in
  let id := opt_id options in
  announcementId <-
    match id with
    | Some s => if truthy s then ret s else generateId
    | None => generateId
    end ;;
  match priority with
  | assertive =>
      lastState <- read lastAssertiveRef ;;
      if (st_message lastState =? message)
           && strict_eq (st_id lastState) id && truthy_opt id
      then ret tt
      else
        currentIndex <- read assertiveIndexRef ;;
        (if Nat.eqb currentIndex 0
         then setAssertive1 message ;; setAssertive2 ""
         else setAssertive2 message ;; setAssertive1 "") ;;
        modifyStore
          (set_assertiveIndexRef (if Nat.eqb currentIndex 0 then 1%nat else 0%nat)) ;;
        modifyStore
          (set_lastAssertiveRef (mkAnnouncementState message announcementId)) ;;
        rearmClearTimeout clearOnUnmountDelay
  | polite =>
      lastState <- read lastPoliteRef ;;
      if (st_message lastState =? message)
           && strict_eq (st_id lastState) id && truthy_opt id
      then ret tt
      else
        currentIndex <- read politeIndexRef ;;
        (if Nat.eqb currentIndex 0
         then setPolite1 message ;; setPolite2 ""
         else setPolite2 message ;; setPolite1 "") ;;
        modifyStore
          (set_politeIndexRef (if Nat.eqb currentIndex 0 then 1%nat else 0%nat)) ;;
        modifyStore
          (set_lastPoliteRef (mkAnnouncementState message announcementId)) ;;
        rearmClearTimeout clearOnUnmountDelay
  end.

Definition announcePolite (clearOnUnmountDelay : Z) (message : string)
    (id : option string) : M unit :=
  announce clearOnUnmountDelay message (mkOptions (Some polite) id).

Definition announceAssertive (clearOnUnmountDelay : Z) (message : string)
    (id : option string) : M unit :=
  announce clearOnUnmountDelay message (mkOptions (Some assertive) id).

(** A freshly mounted provider on a host with no timer of its own pending. *)
Definition mount (h : Host) : World :=
  mkWorld initialStore
    (mkHost (clock h) [] (nextHandle h) (random h) (draws h)).

End LiveAnnouncerProvider.

(** ** The event loop *)

Definition runCallback (cb : Callback) : M unit :=
  match cb with
  | CbClearAnnouncements => LiveAnnouncerProvider.clearAnnouncements
  end.

Fixpoint runCallbacks (due : list Timer) : M unit :=
  match due with
  | [] => ret tt
  | t :: rest => runCallback (timer_callback t) ;; runCallbacks rest
  end.

Definition isDue (now : Z) (t : Timer) : bool := (timer_due t <=? now)%Z.

(** Time passes by [dt] (as [jest.advanceTimersByTime(dt)] does): every
    timer that has come due is removed from the pending list and its callback
    runs once.  All callbacks are the same function, so they are run in
    scheduling order. *)
Definition advanceTimersByTime (dt : Z) : M unit :=
  now <- (fun w => ((clock (host w) + dt)%Z, w, [])) ;;
  due <- (fun w => (filter (isDue now) (timers (host w)), w, [])) ;;
  modifyHost (fun h =>
    mkHost now (filter (fun t => negb (isDue now t)) (timers h))
      (nextHandle h) (random h) (draws h)) ;;
  runCallbacks due.

(** ** The facade *)

(** [interface LiveAnnouncerContextValue], over whatever state the
    operations act on. *)
Record LiveAnnouncerContextValue (S : Type) : Type := mkContextValue {
  announce : string -> LiveAnnouncerOptions -> S -> S;
  announcePolite : string -> option string -> S -> S;
  announceAssertive : string -> option string -> S -> S;
  clearAnnouncements : S -> S
}.
Arguments mkContextValue {S}.
Arguments announce {S}.
Arguments announcePolite {S}.
Arguments announceAssertive {S}.
Arguments clearAnnouncements {S}.

(** The [contextValue] object a provider with the given delay hands to its
    subtree. *)
Definition contextValue (clearOnUnmountDelay : Z)
  : LiveAnnouncerContextValue World :=
  mkContextValue
    (fun message options =>
       exec (LiveAnnouncerProvider.announce clearOnUnmountDelay message options))
    (fun message id =>
       exec (LiveAnnouncerProvider.announcePolite clearOnUnmountDelay message id))
    (fun message id =>
       exec (LiveAnnouncerProvider.announceAssertive clearOnUnmountDelay message id))
    (exec LiveAnnouncerProvider.clearAnnouncements).

(** A thrown [Error(message)] or a normal result. *)
Inductive Result (A : Type) : Type :=
| Throw (message : string)
| Ok (a : A).
Arguments Throw {A}.
Arguments Ok {A}.

(** [useContext(LiveAnnouncerContext)] yields [null] outside any provider;
    the hook turns that into an exception. *)
Definition useLiveAnnouncer {S : Type}
    (context : option (LiveAnnouncerContextValue S))
  : Result (LiveAnnouncerContextValue S) :=
  match context with
  | None => Throw "useLiveAnnouncer must be used within a LiveAnnouncerProvider"
  | Some c => Ok c
  end.

(** ** [LiveAnnouncerMessage] *)

(** [interface LiveAnnouncerMessageProps]; absent optional props are [None]
    and take the defaults of the destructuring pattern. *)
Record LiveAnnouncerMessageProps : Type := mkMessageProps {
  prop_message : string;
  prop_priority : option LiveAnnouncerPriority;
  prop_id : option string;
  prop_clearOnUnmount : option bool
}.

Definition priority_eqb (p q : LiveAnnouncerPriority) : bool :=
  match p, q with
  | polite, polite => true
  | assertive, assertive => true
  | _, _ => false
  end.

(** What one mounted [LiveAnnouncerMessage] keeps between renders: its two
    refs, and the dependency values [message, priority, id] React recorded
    when it last ran the announcing effect ([None] before the first run). *)
Record MessageInstance : Type := mkMessageInstance {
  previousMessageRef : string;
  previousIdRef : option string;
  lastDeps : option (string * LiveAnnouncerPriority * option string)
}.

(** [useRef<string>("")], [useRef<string | undefined>(undefined)]. *)
Definition initialInstance : MessageInstance :=
  mkMessageInstance "" None None.

(** The test of the announcing effect:
    [message && (message !== previousMessageRef.current
                 || id !== previousIdRef.current)] *)
Definition shouldAnnounce (message : string) (id : option string)
    (inst : MessageInstance) : bool :=
  truthy message
  && (negb (message =? previousMessageRef inst)
      || strict_neq_opt id (previousIdRef inst)).

(** Body of the first [useEffect]. *)
Definition announceEffect {S : Type} (ctx : LiveAnnouncerContextValue S)
    (props : LiveAnnouncerMessageProps) (inst : MessageInstance) (s : S)
  : MessageInstance * S :=
  let message := prop_message props in
  let priority :=
    match prop_priority props with Some p => p | None => polite end in
  let id := prop_id props in
  if shouldAnnounce message id inst
  then (mkMessageInstance message id (lastDeps inst),
        announce ctx message (mkOptions (Some priority) id) s)
  else (inst, s).

(** React re-runs an effect when a dependency is not identical to its
    value at the previous run.  [announceChanged] tells whether the
    provider handed out a new [announce] closure since then. *)
Definition depsChanged (announceChanged : bool)
    (old : option (string * LiveAnnouncerPriority * option string))
    (message : string) (priority : LiveAnnouncerPriority) (id : option string)
  : bool :=
  match old with
  | None => true
  | Some (m0, p0, i0) =>
      negb (m0 =? message) || negb (priority_eqb p0 priority)
      || strict_neq_opt i0 id || announceChanged
  end.

(** One render (mount or update) of the component followed by its
    announcing effect. *)
Definition LiveAnnouncerMessage {S : Type}
    (context : option (LiveAnnouncerContextValue S)) (announceChanged : bool)
    (props : LiveAnnouncerMessageProps) (inst : MessageInstance) (s : S)
  : Result (MessageInstance * S) :=
  match useLiveAnnouncer context with
  | Throw e => Throw e
  | Ok ctx =>
      let message := prop_message props in
      let priority :=
        match prop_priority props with Some p => p | None => polite end in
      let id := prop_id props in
      if depsChanged announceChanged (lastDeps inst) message priority id
      then
        let '(inst', s') := announceEffect ctx props inst s in
        Ok (mkMessageInstance (previousMessageRef inst') (previousIdRef inst')
              (Some (message, priority, id)), s')
      else Ok (inst, s)
  end.

(** Cleanup of the second [useEffect] when the component is removed. *)
Definition LiveAnnouncerMessage_unmount {S : Type}
    (ctx : LiveAnnouncerContextValue S) (props : LiveAnnouncerMessageProps)
    (s : S) : S :=
  match prop_clearOnUnmount props with
  | Some true => clearAnnouncements ctx s
  | _ => s
  end.

(** Instances that a sequence of renders can produce. *)
Inductive instanceReachable : MessageInstance -> Prop :=
| ir_mount : instanceReachable initialInstance
| ir_render : forall (S : Type) (ctx : LiveAnnouncerContextValue S)
    (announceChanged : bool) (props : LiveAnnouncerMessageProps)
    (inst inst' : MessageInstance) (s s' : S),
    instanceReachable inst ->
    LiveAnnouncerMessage (Some ctx) announceChanged props inst s = Ok (inst', s') ->
    instanceReachable inst'.

(** A context that only records how it is called (a test spy). *)
Inductive Call : Type :=
| CallAnnounce (message : string) (options : LiveAnnouncerOptions)
| CallAnnouncePolite (message : string) (id : option string)
| CallAnnounceAssertive (message : string) (id : option string)
| CallClearAnnouncements.

Definition spyContext : LiveAnnouncerContextValue (list Call) :=
  mkContextValue
    (fun message options calls => CallAnnounce message options :: calls)
    (fun message id calls => CallAnnouncePolite message id :: calls)
    (fun message id calls => CallAnnounceAssertive message id :: calls)
    (fun calls => CallClearAnnouncements :: calls).

(** Calling one of the four operations the way application code does:
    obtain the context through the hook, then call the selected field. *)
Inductive Operation : Type :=
| DoAnnounce (message : string) (options : LiveAnnouncerOptions)
| DoAnnouncePolite (message : string) (id : option string)
| DoAnnounceAssertive (message : string) (id : option string)
| DoClearAnnouncements.

Definition invoke {S : Type} (context : option (LiveAnnouncerContextValue S))
    (op : Operation) (s : S) : Result S :=
  match useLiveAnnouncer context with
  | Throw e => Throw e
  | Ok ctx =>
      match op with
      | DoAnnounce message options => Ok (announce ctx message options s)
      | DoAnnouncePolite message id => Ok (announcePolite ctx message id s)
      | DoAnnounceAssertive message id => Ok (announceAssertive ctx message id s)
      | DoClearAnnouncements => Ok (clearAnnouncements ctx s)
      end
  end.

(** ** Runs of a store *)

(** What can happen to a mounted provider: a call of [announce], a call of
    [clearAnnouncements], or time passing. *)
Inductive Event : Type :=
| EvAnnounce (message : string) (options : LiveAnnouncerOptions)
| EvClear
| EvAdvance (dt : Z).

Definition step (clearOnUnmountDelay : Z) (ev : Event) : M unit :=
  match ev with
  | EvAnnounce message options =>
      LiveAnnouncerProvider.announce clearOnUnmountDelay message options
  | EvClear => LiveAnnouncerProvider.clearAnnouncements
  | EvAdvance dt => advanceTimersByTime dt
  end.

(** Time only moves forward. *)
Definition wellFormed (ev : Event) : Prop :=
  match ev with
  | EvAdvance dt => (0 <= dt)%Z
  | _ => True
  end.

Fixpoint run (clearOnUnmountDelay : Z) (evs : list Event) (w : World) : World :=
  match evs with
  | [] => w
  | ev :: rest => run clearOnUnmountDelay rest (exec (step clearOnUnmountDelay ev) w)
  end.

Inductive reachable (clearOnUnmountDelay : Z) : World -> Prop :=
| reach_mount : forall h, reachable clearOnUnmountDelay (LiveAnnouncerProvider.mount h)
| reach_step : forall w ev,
    reachable clearOnUnmountDelay w -> wellFormed ev ->
    reachable clearOnUnmountDelay (exec (step clearOnUnmountDelay ev) w).

(** ** Observations *)

Definition priorityOf (options : LiveAnnouncerOptions) : LiveAnnouncerPriority :=
  match opt_priority options with Some p => p | None => polite end.

Definition lastRef (p : LiveAnnouncerPriority) (s : Store) : AnnouncementState :=
  match p with
  | polite => lastPoliteRef s
  | assertive => lastAssertiveRef s
  end.

Definition indexRef (p : LiveAnnouncerPriority) (s : Store) : nat :=
  match p with
  | polite => politeIndexRef s
  | assertive => assertiveIndexRef s
  end.

(** Slot [i] of a channel, with slots indexed 0 and 1: slot 0 is the region
    the code calls [polite1] / [assertive1], slot 1 is [polite2] /
    [assertive2]. *)
Definition region (p : LiveAnnouncerPriority) (i : nat) : Region :=
  match p, i with
  | polite, O => Polite1
  | polite, _ => Polite2
  | assertive, O => Assertive1
  | assertive, _ => Assertive2
  end.

Definition text (r : Region) (s : Store) : string :=
  match r with
  | Polite1 => polite1 s
  | Polite2 => polite2 s
  | Assertive1 => assertive1 s
  | Assertive2 => assertive2 s
  end.

Definition slot (p : LiveAnnouncerPriority) (i : nat) (s : Store) : string :=
  text (region p i) s.

(** The slot an accepted write on channel [p] puts its message in: the
    branch [currentIndex === 0] writes the first region, the other branch
    the second. *)
Definition cursorSlot (p : LiveAnnouncerPriority) (s : Store) : nat :=
  if Nat.eqb (indexRef p s) 0 then 0%nat else 1%nat.

Definition otherSlot (i : nat) : nat :=
  match i with
  | O => 1%nat
  | _ => 0%nat
  end.

(** The guard of the two early [return]s of [announce], read off the state
    before the call. *)
Definition suppressed (w : World) (message : string)
    (options : LiveAnnouncerOptions) : bool :=
  let lastState := lastRef (priorityOf options) (store w) in
  (st_message lastState =? message)
  && strict_eq (st_id lastState) (opt_id options)
  && truthy_opt (opt_id options).

(** At most one slot of channel [p] holds text. *)
Definition exclusive (p : LiveAnnouncerPriority) (s : Store) : Prop :=
  slot p 0 s = "" \/ slot p 1 s = "".

Definition allEmpty (s : Store) : Prop :=
  polite1 s = "" /\ polite2 s = "" /\ assertive1 s = "" /\ assertive2 s = "".

Definition memoryEmpty (s : Store) : Prop :=
  lastPoliteRef s = mkAnnouncementState "" ""
  /\ lastAssertiveRef s = mkAnnouncementState "" "".

(** A host to run examples on. *)
Definition exampleHost : Host :=
  mkHost 1700000000000 [] 1%positive (fun _ => "k3j9x0q2a") 0.

Definition exampleWorld : World := LiveAnnouncerProvider.mount exampleHost.

(** Each channel has at most one slot holding text. *)
Definition slotInvariant (w : World) : Prop :=
  forall p, exclusive p (store w).

(** The channel a call does not address. *)
Definition otherPriority (p : LiveAnnouncerPriority) : LiveAnnouncerPriority :=
  match p with
  | polite => assertive
  | assertive => polite
  end.

(** Effects of the timer part of an accepted call. *)
Definition timerEffects (d : Z) (w : World) : list Effect :=
  if (d >? 0)%Z then
    match clearTimeoutRef (store w) with
    | Some h => [ClearTimeout h]
    | None => []
    end ++ [SetTimeout (nextHandle (host w)) CbClearAnnouncements d]
  else [].

(** The world [clearAnnouncements] leaves behind. *)
Definition cleared (w : World) : World :=
  mkWorld
    (mkStore (politeIndexRef (store w)) (assertiveIndexRef (store w))
       "" "" "" "" (mkAnnouncementState "" "") (mkAnnouncementState "" "")
       (clearTimeoutRef (store w)))
    (host w).

(** The provider's timer bookkeeping: at most one of its timers is pending,
    and a pending one is the one [clearTimeoutRef] names; with the delay
    switched off none is ever pending. *)
Definition timerInvariant (d : Z) (w : World) : Prop :=
  ((d <= 0)%Z -> timers (host w) = [])
  /\ (timers (host w) = []
      \/ exists t, timers (host w) = [t]
                   /\ clearTimeoutRef (store w) = Some (timer_handle t)).

(** The suppression rule in the words of the specification: an explicit
    identifier was supplied, it equals the channel's last identifier, and
    the message equals the channel's last message. *)
Definition explicitDuplicate (w : World) (message : string)
    (options : LiveAnnouncerOptions) : Prop :=
  let lastState := lastRef (priorityOf options) (store w) in
  exists i, opt_id options = Some i
            /\ i = st_id lastState /\ message = st_message lastState.

(** The same rule restricted to identifiers that are not the empty string. *)
Definition nonEmptyDuplicate (w : World) (message : string)
    (options : LiveAnnouncerOptions) : Prop :=
  let lastState := lastRef (priorityOf options) (store w) in
  exists i, opt_id options = Some i /\ i <> ""
            /\ i = st_id lastState /\ message = st_message lastState.

(** A call that did nothing at all: same world, no setter and no timer
    function called. *)
Definition noOp (d : Z) (w : World) (message : string)
    (options : LiveAnnouncerOptions) : Prop :=
  exec (LiveAnnouncerProvider.announce d message options) w = w
  /\ effects (LiveAnnouncerProvider.announce d message options) w = [].

(** Exactly one slot of channel [p] holds text, and that text is [message]. *)
Definition exactlyOneHolds (p : LiveAnnouncerPriority) (s : Store)
    (message : string) : Prop :=
  (slot p 0 s <> "" /\ slot p 1 s = "" /\ slot p 0 s = message)
  \/ (slot p 1 s <> "" /\ slot p 0 s = "" /\ slot p 1 s = message).

(** Whether an event is an accepted [announce] on channel [p] when it
    happens in world [w]. *)
Definition acceptedOn (p : LiveAnnouncerPriority) (w : World) (ev : Event)
  : bool :=
  match ev with
  | EvAnnounce message options =>
      priority_eqb (priorityOf options) p && negb (suppressed w message options)
  | _ => false
  end.

(** A run during which channel [p] accepts no announcement. *)
Fixpoint quietOn (d : Z) (p : LiveAnnouncerPriority) (evs : list Event)
    (w : World) : bool :=
  match evs with
  | [] => true
  | ev :: rest =>
      negb (acceptedOn p w ev) && quietOn d p rest (exec (step d ev) w)
  end.

(** The rapid-calls scenario on a fresh provider with the default delay. *)
Definition afterThreeRapidCalls : World :=
  exec (LiveAnnouncerProvider.announcePolite default_clearOnUnmountDelay
          "Msg 3" (Some "3"))
    (exec (LiveAnnouncerProvider.announcePolite default_clearOnUnmountDelay
             "Msg 2" (Some "2"))
       (exec (LiveAnnouncerProvider.announcePolite default_clearOnUnmountDelay
                "Msg 1" (Some "1"))
          exampleWorld)).

(** What holds of a reachable [LiveAnnouncerMessage] instance: if its
    announcing effect last ran for a non-empty message, the two refs hold the
    message and identifier of that run. *)
Definition instanceInvariant (inst : MessageInstance) : Prop :=
  match lastDeps inst with
  | Some (m, _, i) =>
      m = "" \/ (previousMessageRef inst = m /\ previousIdRef inst = i)
  | None => True
  end.

(** ** Further parts of the source *)

(** Cleanup of the provider's mount effect, run when the provider is
    removed: [if (clearTimeoutRef.current) clearTimeout(clearTimeoutRef.current)]. *)
Definition providerUnmount : M unit :=
  pending <- read clearTimeoutRef ;;
  match pending with
  | Some h => clearTimeout h
  | None => ret tt
  end.

(** One [<div role=... aria-live=... aria-atomic=... data-testid=...>] of
    [DoubleAnnouncer] with its text. *)
Record LiveRegion : Type := mkLiveRegion {
  role : string;
  ariaLive : string;
  ariaAtomic : string;
  testid : string;
  textContent : string
}.

(** The four regions [DoubleAnnouncer] renders, in document order. *)
Definition DoubleAnnouncer (polite1 polite2 assertive1 assertive2 : string)
  : list LiveRegion :=
  [mkLiveRegion "status" "polite" "true" "LiveAnnouncer-polite-1" polite1;
   mkLiveRegion "status" "polite" "true" "LiveAnnouncer-polite-2" polite2;
   mkLiveRegion "alert" "assertive" "true" "LiveAnnouncer-assertive-1" assertive1;
   mkLiveRegion "alert" "assertive" "true" "LiveAnnouncer-assertive-2" assertive2].

(** What the provider renders below its children:
    [<DoubleAnnouncer polite1={polite1} ... assertive2={assertive2} />]. *)
Definition renderedRegions (w : World) : list LiveRegion :=
  DoubleAnnouncer (polite1 (store w)) (polite2 (store w))
    (assertive1 (store w)) (assertive2 (store w)).

(** The string value of a priority. *)
Definition priorityName (p : LiveAnnouncerPriority) : string :=
  match p with
  | polite => "polite"
  | assertive => "assertive"
  end.

(** The regions with a given [aria-live] value that currently hold text. *)
Definition speaking (p : LiveAnnouncerPriority) (regions : list LiveRegion)
  : list LiveRegion :=
  filter (fun r => (ariaLive r =? priorityName p)
                   && negb (textContent r =? "")) regions.

(** The second effect of [LiveAnnouncerMessage]:
    [useEffect(() => () => { if (clearOnUnmount) clearAnnouncements(); },
               [clearOnUnmount, clearAnnouncements])].
    Between renders React holds the cleanup function of the last run, which
    captured the [clearOnUnmount] and [clearAnnouncements] of that render. *)
Record Cleanup (S : Type) : Type := mkCleanup {
  captured_clearOnUnmount : bool;
  captured_clearAnnouncements : S -> S
}.
Arguments mkCleanup {S}.
Arguments captured_clearOnUnmount {S}.
Arguments captured_clearAnnouncements {S}.

(** Calling a cleanup function. *)
Definition runCleanup {S : Type} (c : Cleanup S) (s : S) : S :=
  if captured_clearOnUnmount c then captured_clearAnnouncements c s else s.

(** The second effect on a render.  On mount the effect runs and leaves its
    cleanup.  On an update React compares the dependencies: if
    [clearOnUnmount] differs from the captured one, or the context handed out
    a new [clearAnnouncements] ([clearChanged]), the old cleanup is called and
    the effect runs again; otherwise the old cleanup stays. *)
Definition clearOnUnmountEffect {S : Type} (ctx : LiveAnnouncerContextValue S)
    (clearChanged : bool) (props : LiveAnnouncerMessageProps)
    (registered : option (Cleanup S)) (s : S) : Cleanup S * S :=
  let clearOnUnmount :=
    match prop_clearOnUnmount props with Some b => b | None => false end in
  match registered with
  | None => (mkCleanup clearOnUnmount (clearAnnouncements ctx), s)
  | Some old =>
      if negb (Bool.eqb (captured_clearOnUnmount old) clearOnUnmount)
         || clearChanged
      then (mkCleanup clearOnUnmount (clearAnnouncements ctx), runCleanup old s)
      else (old, s)
  end.

(** A commit of [LiveAnnouncerMessage] with both effects: React first calls
    the cleanups of the effects whose dependencies changed, then runs the
    effects in the order they are declared.  The second effect's body only
    returns its cleanup, so the cleanup phase is all it does to the state. *)
Definition LiveAnnouncerMessage_commit {S : Type}
    (context : option (LiveAnnouncerContextValue S))
    (announceChanged clearChanged : bool) (props : LiveAnnouncerMessageProps)
    (inst : MessageInstance) (registered : option (Cleanup S)) (s : S)
  : Result (MessageInstance * Cleanup S * S) :=
  match useLiveAnnouncer context with
  | Throw e => Throw e
  | Ok ctx =>
      let '(cleanup, s1) := clearOnUnmountEffect ctx clearChanged props registered s in
      match LiveAnnouncerMessage context announceChanged props inst s1 with
      | Throw e => Throw e
      | Ok (inst', s2) => Ok (inst', cleanup, s2)
      end
  end.

(** How many events of a run are accepted announcements on channel [p]. *)
Fixpoint acceptedCount (d : Z) (p : LiveAnnouncerPriority) (evs : list Event)
    (w : World) : nat :=
  match evs with
  | [] => 0
  | ev :: rest =>
      (if acceptedOn p w ev then 1 else 0)
      + acceptedCount d p rest (exec (step d ev) w)
  end.

(** In every state a provider can reach, on each channel: the cursor is 0
    or 1, the slot under the cursor is empty, and the other slot shows the
    message the channel's memory holds. *)
Definition rotationInvariant (w : World) : Prop :=
  forall p,
    (indexRef p (store w) <= 1)%nat
    /\ slot p (indexRef p (store w)) (store w) = ""
    /\ slot p (otherSlot (indexRef p (store w))) (store w)
       = st_message (lastRef p (store w)).

(** A channel's memory is the empty pair or carries a non-empty identifier. *)
Definition memoryInvariant (w : World) : Prop :=
  forall p,
    lastRef p (store w) = mkAnnouncementState "" ""
    \/ st_id (lastRef p (store w)) <> "".

(** * Properties *)

(** ** Running [announce] *)

Ltac unfold_announce :=
  unfold LiveAnnouncerProvider.announcePolite,
    LiveAnnouncerProvider.announceAssertive,
    LiveAnnouncerProvider.announce,
    LiveAnnouncerProvider.rearmClearTimeout,
    LiveAnnouncerProvider.clearAnnouncements,
    LiveAnnouncerProvider.generateId,
    setPolite1, setPolite2, setAssertive1, setAssertive2,
    setTimeout, clearTimeout, modifyStore, modifyHost, emit, read, bind, ret,
    exec, effects.

Ltac split_options o :=
  let i := fresh "i" in
  destruct o as [[[ | ] | ] [i | ]].

(** The call returns at one of the early [return]s: nothing happened. *)
Lemma announce_suppressed_run (d : Z) (w : World) (message : string)
    (options : LiveAnnouncerOptions) :
  suppressed w message options = true ->
  LiveAnnouncerProvider.announce d message options w = (tt, w, []).
Proof.
  unfold suppressed, priorityOf.
  split_options options; cbn [opt_priority opt_id lastRef truthy_opt strict_eq];
    intros H; unfold_announce; cbn [opt_priority opt_id truthy_opt strict_eq];
    try (rewrite !andb_false_r in H; discriminate H);
    pose proof H as H';
    apply andb_true_iff in H'; destruct H' as [_ Ht];
    rewrite Ht in H |- *; rewrite H; reflexivity.
Qed.

Ltac crunch :=
  cbn in *;
  repeat match goal with
  | H : ?c = _ |- context [if ?c then _ else _] => rewrite H; cbn in *
  | |- context [if ?c then _ else _] => destruct c eqn:?; cbn in *
  | |- context [match ?c with Some _ => _ | None => _ end] =>
      destruct c eqn:?; cbn in *
  end.

Ltac finish := repeat split; first [reflexivity | discriminate | congruence].

Ltac run_announce w options :=
  unfold suppressed, priorityOf in *;
  destruct w as [[pi ai p1 p2 a1 a2 lp la ct] [ck ts nh rnd dr]];
  split_options options;
  unfold_announce;
  unfold timerEffects, cursorSlot, otherSlot, slot, indexRef, lastRef, region, text
    in *;
  crunch.

(** The effects of an accepted call, in the order the code performs them. *)
Lemma announce_accepted_effects (d : Z) (w : World) (message : string)
    (options : LiveAnnouncerOptions) :
  suppressed w message options = false ->
  let p := priorityOf options in
  let k := cursorSlot p (store w) in
  effects (LiveAnnouncerProvider.announce d message options) w
  = [SetText (region p k) message; SetText (region p (otherSlot k)) ""]
    ++ timerEffects d w.
Proof.
  intros H. run_announce w options; finish.
Qed.

(** The store after an accepted call, on the channel it addressed. *)
Lemma announce_accepted_channel (d : Z) (w : World) (message : string)
    (options : LiveAnnouncerOptions) :
  suppressed w message options = false ->
  let p := priorityOf options in
  let k := cursorSlot p (store w) in
  let s' := store (exec (LiveAnnouncerProvider.announce d message options) w) in
  slot p k s' = message
  /\ slot p (otherSlot k) s' = ""
  /\ indexRef p s' = otherSlot k
  /\ st_message (lastRef p s') = message.
Proof.
  intros H. run_announce w options; finish.
Qed.

(** No call of [announce] touches the channel it does not address. *)
Lemma announce_other_channel (d : Z) (w : World) (message : string)
    (options : LiveAnnouncerOptions) :
  let q := otherPriority (priorityOf options) in
  let s' := store (exec (LiveAnnouncerProvider.announce d message options) w) in
  slot q 0 s' = slot q 0 (store w)
  /\ slot q 1 s' = slot q 1 (store w)
  /\ indexRef q s' = indexRef q (store w)
  /\ lastRef q s' = lastRef q (store w).
Proof.
  unfold otherPriority.
  run_announce w options; finish.
Qed.

(** The identifier an accepted call records: the caller's when it is a
    non-empty string, a generated one otherwise. *)
Lemma announce_accepted_id (d : Z) (w : World) (message : string)
    (options : LiveAnnouncerOptions) :
  suppressed w message options = false ->
  let p := priorityOf options in
  let s' := store (exec (LiveAnnouncerProvider.announce d message options) w) in
  st_id (lastRef p s')
  = match opt_id options with
    | Some s =>
        if truthy s then s
        else fst (fst (LiveAnnouncerProvider.generateId w))
    | None => fst (fst (LiveAnnouncerProvider.generateId w))
    end.
Proof.
  intros H. run_announce w options; finish.
Qed.

(** The timer part of an accepted call. *)
Lemma announce_accepted_timer (d : Z) (w : World) (message : string)
    (options : LiveAnnouncerOptions) :
  suppressed w message options = false ->
  let w' := exec (LiveAnnouncerProvider.announce d message options) w in
  if (d >? 0)%Z then
    timers (host w')
    = match clearTimeoutRef (store w) with
      | Some h =>
          filter (fun t => negb (Pos.eqb (timer_handle t) h)) (timers (host w))
      | None => timers (host w)
      end
      ++ [mkTimer (nextHandle (host w)) (clock (host w) + hostDelay d)
            CbClearAnnouncements]
    /\ clearTimeoutRef (store w') = Some (nextHandle (host w))
    /\ nextHandle (host w') = Pos.succ (nextHandle (host w))
    /\ clock (host w') = clock (host w)
  else
    timers (host w') = timers (host w)
    /\ clearTimeoutRef (store w') = clearTimeoutRef (store w)
    /\ nextHandle (host w') = nextHandle (host w)
    /\ clock (host w') = clock (host w).
Proof.
  intros H. run_announce w options; finish.
Qed.

(** ** Running [clearAnnouncements] and the event loop *)

Lemma clearAnnouncements_run (w : World) :
  LiveAnnouncerProvider.clearAnnouncements w
  = (tt,
     mkWorld
       (mkStore (politeIndexRef (store w)) (assertiveIndexRef (store w))
          "" "" "" "" (mkAnnouncementState "" "") (mkAnnouncementState "" "")
          (clearTimeoutRef (store w)))
       (host w),
     [SetText Polite1 ""; SetText Polite2 ""; SetText Assertive1 "";
      SetText Assertive2 ""]).
Proof.
  destruct w as [[pi ai p1 p2 a1 a2 lp la ct] h]. reflexivity.
Qed.

Lemma exec_clearAnnouncements (w : World) :
  exec LiveAnnouncerProvider.clearAnnouncements w = cleared w.
Proof. unfold exec. rewrite clearAnnouncements_run. reflexivity. Qed.

Lemma exec_bind {A B : Type} (m : M A) (f : A -> M B) (w : World) :
  exec (bind m f) w = exec (f (fst (fst (m w)))) (exec m w).
Proof.
  unfold exec, bind. destruct (m w) as [[a w1] e1]. cbn [fst snd].
  destruct (f a w1) as [[b w2] e2]. reflexivity.
Qed.

Lemma exec_runCallbacks_cons (t : Timer) (rest : list Timer) (w : World) :
  exec (runCallbacks (t :: rest)) w = exec (runCallbacks rest) (cleared w).
Proof.
  cbn [runCallbacks]. rewrite exec_bind. destruct t as [th td []].
  cbn [runCallback timer_callback]. rewrite exec_clearAnnouncements. reflexivity.
Qed.

(** A batch of due callbacks: nothing happens when it is empty, otherwise
    the outcome is that of a single [clearAnnouncements]. *)
Lemma exec_runCallbacks (due : list Timer) (w : World) :
  exec (runCallbacks due) w = match due with [] => w | _ :: _ => cleared w end.
Proof.
  revert w. induction due as [| t rest IH]; intros w.
  - reflexivity.
  - rewrite exec_runCallbacks_cons, IH. destruct rest; reflexivity.
Qed.

(** Time passing: the clock moves, due timers leave the pending list, and
    if there was any the store is cleared. *)
Lemma exec_advanceTimersByTime (dt : Z) (w : World) :
  exec (advanceTimersByTime dt) w
  = let now := (clock (host w) + dt)%Z in
    let w1 :=
      mkWorld (store w)
        (mkHost now (filter (fun t => negb (isDue now t)) (timers (host w)))
           (nextHandle (host w)) (random (host w)) (draws (host w))) in
    match filter (isDue now) (timers (host w)) with
    | [] => w1
    | _ :: _ => cleared w1
    end.
Proof.
  unfold advanceTimersByTime. rewrite !exec_bind. cbn [fst snd].
  rewrite exec_runCallbacks. reflexivity.
Qed.

(** ** The slot invariant *)

Lemma slotInvariant_mount (h : Host) :
  slotInvariant (LiveAnnouncerProvider.mount h).
Proof. intros [ | ]; left; reflexivity. Qed.

Lemma slotInvariant_cleared (w : World) : slotInvariant (cleared w).
Proof. intros [ | ]; left; reflexivity. Qed.

Lemma slotInvariant_announce (d : Z) (w : World) (message : string)
    (options : LiveAnnouncerOptions) :
  slotInvariant w ->
  slotInvariant (exec (LiveAnnouncerProvider.announce d message options) w).
Proof.
  intros H p. pose proof (H polite) as Hp. pose proof (H assertive) as Ha.
  clear H. unfold exclusive in *.
  destruct p; run_announce w options; auto.
Qed.

Lemma slotInvariant_advance (dt : Z) (w : World) :
  slotInvariant w -> slotInvariant (exec (advanceTimersByTime dt) w).
Proof.
  intros H. rewrite exec_advanceTimersByTime. cbn zeta.
  destruct (filter _ (timers (host w))).
  - exact H.
  - apply slotInvariant_cleared.
Qed.

Lemma slotInvariant_step (d : Z) (ev : Event) (w : World) :
  slotInvariant w -> slotInvariant (exec (step d ev) w).
Proof.
  intros H. destruct ev as [message options | | dt]; cbn [step].
  - apply slotInvariant_announce; exact H.
  - rewrite exec_clearAnnouncements. apply slotInvariant_cleared.
  - apply slotInvariant_advance; exact H.
Qed.

Lemma slotInvariant_reachable (d : Z) (w : World) :
  reachable d w -> slotInvariant w.
Proof.
  induction 1 as [h | w ev Hr IH Hwf].
  - apply slotInvariant_mount.
  - apply slotInvariant_step; exact IH.
Qed.

(** C1. In every state a mounted provider can reach, each channel has at
    most one slot holding text; a call of [announce], a call of
    [clearAnnouncements], time passing and the firing of the clearing
    callback all lead to states where this still holds; and an accepted
    [announce] puts its message in the slot under the cursor and empties
    the channel's other slot. *)
Theorem at_most_one_slot_per_channel (d : Z) (w : World) :
  reachable d w ->
  slotInvariant w
  /\ (forall message options,
        slotInvariant (exec (LiveAnnouncerProvider.announce d message options) w))
  /\ slotInvariant (exec LiveAnnouncerProvider.clearAnnouncements w)
  /\ (forall dt, slotInvariant (exec (advanceTimersByTime dt) w))
  /\ (forall cb, slotInvariant (exec (runCallback cb) w))
  /\ (forall message options,
        suppressed w message options = false ->
        let p := priorityOf options in
        let k := cursorSlot p (store w) in
        let s' := store (exec (LiveAnnouncerProvider.announce d message options) w) in
        slot p k s' = message /\ slot p (otherSlot k) s' = "").
Proof.
  intros Hr. pose proof (slotInvariant_reachable d w Hr) as Hinv.
  split; [exact Hinv |].
  split; [intros; apply slotInvariant_announce; exact Hinv |].
  split; [rewrite exec_clearAnnouncements; apply slotInvariant_cleared |].
  split; [intros; apply slotInvariant_advance; exact Hinv |].
  split.
  - intros []. cbn [runCallback]. rewrite exec_clearAnnouncements.
    apply slotInvariant_cleared.
  - intros message options Hs.
    destruct (announce_accepted_channel d w message options Hs) as (H1 & H2 & _).
    split; assumption.
Qed.

Lemma at_most_one_slot_per_channel_witness :
  reachable 7000 (exec (step 7000 (EvAnnounce "Saved" (mkOptions None None)))
                    exampleWorld)
  /\ slotInvariant (exec (step 7000 (EvAnnounce "Saved" (mkOptions None None)))
                      exampleWorld).
Proof.
  assert (Hr : reachable 7000
                 (exec (step 7000 (EvAnnounce "Saved" (mkOptions None None)))
                    exampleWorld)).
  { apply reach_step; [apply (reach_mount 7000 exampleHost) | exact I]. }
  split; [exact Hr |].
  exact (proj1 (at_most_one_slot_per_channel 7000 _ Hr)).
Defined.

(** ** Suppression *)

Lemma truthy_true_iff (s : string) : truthy s = true <-> s <> "".
Proof.
  unfold truthy. rewrite negb_true_iff. split.
  - intros H E. apply String.eqb_neq in H. contradiction.
  - intros H. apply String.eqb_neq. exact H.
Qed.

(** The guard of the code holds exactly for duplicates that carry a
    non-empty identifier. *)
Lemma suppressed_true_iff (w : World) (message : string)
    (options : LiveAnnouncerOptions) :
  suppressed w message options = true <-> nonEmptyDuplicate w message options.
Proof.
  unfold suppressed, nonEmptyDuplicate. cbn zeta.
  destruct (opt_id options) as [i |]; cbn [strict_eq truthy_opt].
  - rewrite !andb_true_iff, !String.eqb_eq, truthy_true_iff. split.
    + intros [[Hm Hi] Ht]. exists i. repeat split; congruence.
    + intros (j & Hj & Hne & Hid & Hm). inversion Hj; subst j.
      repeat split; congruence.
  - rewrite andb_false_r. split; [discriminate |].
    intros (j & Hj & _). discriminate Hj.
Qed.

Lemma suppressed_false_iff (w : World) (message : string)
    (options : LiveAnnouncerOptions) :
  suppressed w message options = false <-> ~ nonEmptyDuplicate w message options.
Proof.
  rewrite <- suppressed_true_iff. destruct (suppressed w message options).
  - split; [discriminate | intros H; contradiction H; reflexivity].
  - split; [intros _ C; discriminate C | reflexivity].
Qed.

(** C2, as stated, fails for the empty identifier: on a fresh provider with
    the default delay, [announce("", { id: "" })] names an identifier equal to
    the channel's last one and a message equal to its last one, yet the call
    is accepted: both slots are written and the timer is armed. *)
Lemma empty_identifier_is_not_suppressed :
  explicitDuplicate exampleWorld "" (mkOptions None (Some ""))
  /\ effects
       (LiveAnnouncerProvider.announce default_clearOnUnmountDelay ""
          (mkOptions None (Some ""))) exampleWorld
     = [SetText Polite1 ""; SetText Polite2 "";
        SetTimeout 1%positive CbClearAnnouncements 7000]
  /\ ~ noOp default_clearOnUnmountDelay exampleWorld ""
         (mkOptions None (Some "")).
Proof.
  split; [| split].
  - exists "". repeat split; reflexivity.
  - reflexivity.
  - intros [_ H]. discriminate H.
Qed.

(** C2 (amended). A call of [announce] does nothing at all -- same store,
    same timers, no setter and no timer function called -- if and only if
    the caller supplied a non-empty identifier equal to the channel's last
    identifier and a message equal to the channel's last message.  In every
    other case (no identifier, the empty identifier, another identifier,
    another message) the call is accepted: it calls the setters of both slots
    of the channel, the message going to the slot under the cursor, then does
    the timer part, and it moves the cursor. *)
Theorem suppression_rule (d : Z) (w : World) (message : string)
    (options : LiveAnnouncerOptions) :
  let p := priorityOf options in
  let k := cursorSlot p (store w) in
  let w' := exec (LiveAnnouncerProvider.announce d message options) w in
  (noOp d w message options <-> nonEmptyDuplicate w message options)
  /\ (nonEmptyDuplicate w message options ->
      LiveAnnouncerProvider.announce d message options w = (tt, w, []))
  /\ (~ nonEmptyDuplicate w message options ->
      effects (LiveAnnouncerProvider.announce d message options) w
      = [SetText (region p k) message; SetText (region p (otherSlot k)) ""]
        ++ timerEffects d w
      /\ indexRef p (store w') = otherSlot k
      /\ indexRef p (store w') <> indexRef p (store w)).
Proof.
  cbn zeta.
  assert (Hno : ~ nonEmptyDuplicate w message options ->
      effects (LiveAnnouncerProvider.announce d message options) w
      = [SetText (region (priorityOf options)
                    (cursorSlot (priorityOf options) (store w))) message;
         SetText (region (priorityOf options)
                    (otherSlot (cursorSlot (priorityOf options) (store w)))) ""]
        ++ timerEffects d w
      /\ indexRef (priorityOf options)
           (store (exec (LiveAnnouncerProvider.announce d message options) w))
         = otherSlot (cursorSlot (priorityOf options) (store w))
      /\ indexRef (priorityOf options)
           (store (exec (LiveAnnouncerProvider.announce d message options) w))
         <> indexRef (priorityOf options) (store w)).
  { intros Hn. apply suppressed_false_iff in Hn.
    split; [apply announce_accepted_effects; exact Hn |].
    destruct (announce_accepted_channel d w message options Hn)
      as (_ & _ & Hi & _).
    split; [exact Hi |].
    rewrite Hi. unfold cursorSlot.
    destruct (indexRef (priorityOf options) (store w)); cbn; discriminate. }
  assert (Hyes : nonEmptyDuplicate w message options ->
      LiveAnnouncerProvider.announce d message options w = (tt, w, [])).
  { intros Hd. apply announce_suppressed_run. apply suppressed_true_iff.
    exact Hd. }
  split; [| split; assumption].
  split.
  - intros [_ He].
    destruct (suppressed w message options) eqn:Hs.
    + apply suppressed_true_iff. exact Hs.
    + apply suppressed_false_iff in Hs. destruct (Hno Hs) as (Heff & _).
      rewrite Heff in He. discriminate He.
  - intros Hd. unfold noOp, exec, effects. rewrite (Hyes Hd). split; reflexivity.
Qed.

Lemma suppression_rule_witness :
  nonEmptyDuplicate
    (exec (LiveAnnouncerProvider.announcePolite 7000 "Saved" (Some "x"))
       exampleWorld)
    "Saved" (mkOptions None (Some "x"))
  /\ LiveAnnouncerProvider.announce 7000 "Saved" (mkOptions None (Some "x"))
       (exec (LiveAnnouncerProvider.announcePolite 7000 "Saved" (Some "x"))
          exampleWorld)
     = (tt,
        exec (LiveAnnouncerProvider.announcePolite 7000 "Saved" (Some "x"))
          exampleWorld,
        []).
Proof.
  assert (Hd : nonEmptyDuplicate
                 (exec (LiveAnnouncerProvider.announcePolite 7000 "Saved" (Some "x"))
                    exampleWorld)
                 "Saved" (mkOptions None (Some "x"))).
  { exists "x". split; [reflexivity |]. split; [discriminate |].
    split; reflexivity. }
  split; [exact Hd |].
  exact (proj1 (proj2 (suppression_rule 7000 _ "Saved" (mkOptions None (Some "x")))) Hd).
Defined.

(** ** Rotation *)

Lemma priority_eqb_eq (p q : LiveAnnouncerPriority) :
  priority_eqb p q = true <-> p = q.
Proof. destruct p, q; cbn; split; congruence. Qed.

Lemma otherPriority_cases (p q : LiveAnnouncerPriority) :
  p = q \/ q = otherPriority p.
Proof. destruct p, q; cbn; auto. Qed.

Lemma indexRef_cleared (p : LiveAnnouncerPriority) (w : World) :
  indexRef p (store (cleared w)) = indexRef p (store w).
Proof. destruct p; reflexivity. Qed.

(** Only an accepted announcement on a channel moves that channel's cursor. *)
Lemma quiet_step_keeps_cursor (d : Z) (p : LiveAnnouncerPriority) (w : World)
    (ev : Event) :
  acceptedOn p w ev = false ->
  indexRef p (store (exec (step d ev) w)) = indexRef p (store w).
Proof.
  destruct ev as [message options | | dt]; cbn [acceptedOn step]; intros H.
  - destruct (otherPriority_cases (priorityOf options) p) as [E | E].
    + apply priority_eqb_eq in E. rewrite E in H. cbn in H.
      apply negb_false_iff in H.
      unfold exec. rewrite (announce_suppressed_run d w message options H).
      reflexivity.
    + subst p. apply (announce_other_channel d w message options).
  - rewrite exec_clearAnnouncements. apply indexRef_cleared.
  - rewrite exec_advanceTimersByTime. cbn zeta.
    destruct (filter _ (timers (host w))).
    + destruct p; reflexivity.
    + rewrite indexRef_cleared. destruct p; reflexivity.
Qed.

Lemma quiet_run_keeps_cursor (d : Z) (p : LiveAnnouncerPriority)
    (evs : list Event) (w : World) :
  quietOn d p evs w = true ->
  indexRef p (store (run d evs w)) = indexRef p (store w).
Proof.
  revert w. induction evs as [| ev rest IH]; intros w H; cbn [run quietOn] in *.
  - reflexivity.
  - apply andb_true_iff in H. destruct H as [Hq Hrest].
    apply negb_true_iff in Hq.
    rewrite (IH _ Hrest). apply quiet_step_keeps_cursor. exact Hq.
Qed.

Lemma region_otherSlot (p : LiveAnnouncerPriority) (k : nat) :
  region p k <> region p (otherSlot k).
Proof. destruct p, k; cbn; discriminate. Qed.

(** C3. Take an accepted announcement on a channel, then any run in which
    that channel accepts nothing (calls on the other channel, suppressed
    calls, clears, time passing), then a second accepted announcement on the
    same channel.  The first call sets the message in one slot of the channel
    and the second call sets its message in the other slot. *)
Theorem consecutive_writes_alternate (d : Z) (w : World)
    (message message' : string) (options options' : LiveAnnouncerOptions)
    (evs : list Event) :
  let p := priorityOf options in
  let w1 := exec (LiveAnnouncerProvider.announce d message options) w in
  let w2 := run d evs w1 in
  priorityOf options' = p ->
  suppressed w message options = false ->
  quietOn d p evs w1 = true ->
  suppressed w2 message' options' = false ->
  exists k : nat,
    k = cursorSlot p (store w)
    /\ cursorSlot p (store w2) = otherSlot k
    /\ region p k <> region p (otherSlot k)
    /\ effects (LiveAnnouncerProvider.announce d message options) w
       = [SetText (region p k) message; SetText (region p (otherSlot k)) ""]
         ++ timerEffects d w
    /\ effects (LiveAnnouncerProvider.announce d message' options') w2
       = [SetText (region p (otherSlot k)) message'; SetText (region p k) ""]
         ++ timerEffects d w2.
Proof.
  cbn zeta. intros Hp Hs Hq Hs'.
  exists (cursorSlot (priorityOf options) (store w)).
  destruct (announce_accepted_channel d w message options Hs)
    as (_ & _ & Hi & _).
  assert (Hc : cursorSlot (priorityOf options)
                 (store (run d evs
                    (exec (LiveAnnouncerProvider.announce d message options) w)))
               = otherSlot (cursorSlot (priorityOf options) (store w))).
  { unfold cursorSlot at 1. rewrite (quiet_run_keeps_cursor _ _ _ _ Hq), Hi.
    unfold cursorSlot.
    destruct (indexRef (priorityOf options) (store w)); reflexivity. }
  split; [reflexivity |].
  split; [exact Hc |].
  split; [apply region_otherSlot |].
  split; [apply announce_accepted_effects; exact Hs |].
  rewrite (announce_accepted_effects d _ message' options' Hs').
  cbn zeta. rewrite Hp, Hc.
  unfold cursorSlot.
  destruct (indexRef (priorityOf options) (store w)); reflexivity.
Qed.

Lemma consecutive_writes_alternate_witness :
  exists k : nat,
    k = 0%nat
    /\ effects (LiveAnnouncerProvider.announce 0 "First" (mkOptions None None))
         exampleWorld
       = [SetText Polite1 "First"; SetText Polite2 ""]
    /\ effects (LiveAnnouncerProvider.announce 0 "Second" (mkOptions None None))
         (run 0 [EvAnnounce "Error" (mkOptions (Some assertive) None)]
            (exec (LiveAnnouncerProvider.announce 0 "First" (mkOptions None None))
               exampleWorld))
       = [SetText Polite2 "Second"; SetText Polite1 ""].
Proof.
  destruct (consecutive_writes_alternate 0 exampleWorld "First" "Second"
              (mkOptions None None) (mkOptions None None)
              [EvAnnounce "Error" (mkOptions (Some assertive) None)]
              eq_refl eq_refl eq_refl eq_refl)
    as (k & Hk & _ & _ & H1 & H2).
  exists k. split; [exact Hk |]. subst k. split; [exact H1 | exact H2].
Defined.

(** ** The state after an accepted write *)

(** C4, as stated, fails for the empty message: [announce("")] on a fresh
    provider is accepted and leaves both slots of the channel empty, so no
    slot is non-empty afterwards. *)
Lemma accepted_empty_message_leaves_no_text :
  suppressed exampleWorld "" (mkOptions None None) = false
  /\ slot polite 0
       (store (exec (LiveAnnouncerProvider.announce default_clearOnUnmountDelay ""
                       (mkOptions None None)) exampleWorld)) = ""
  /\ slot polite 1
       (store (exec (LiveAnnouncerProvider.announce default_clearOnUnmountDelay ""
                       (mkOptions None None)) exampleWorld)) = ""
  /\ ~ exactlyOneHolds polite
         (store (exec (LiveAnnouncerProvider.announce default_clearOnUnmountDelay ""
                         (mkOptions None None)) exampleWorld)) "".
Proof.
  repeat split.
  intros [(H & _) | (H & _)]; apply H; reflexivity.
Qed.

(** C4 (amended). After an accepted [announce(message)] the slot that was
    under the channel's cursor holds [message] and the channel's other slot
    is empty.  So when [message] is not empty, exactly one slot of the
    channel is non-empty and it holds the message; when [message] is empty,
    both slots are empty. *)
Theorem accepted_announce_result (d : Z) (w : World) (message : string)
    (options : LiveAnnouncerOptions) :
  suppressed w message options = false ->
  let p := priorityOf options in
  let k := cursorSlot p (store w) in
  let s' := store (exec (LiveAnnouncerProvider.announce d message options) w) in
  slot p k s' = message
  /\ slot p (otherSlot k) s' = ""
  /\ (message <> "" -> exactlyOneHolds p s' message)
  /\ (message = "" -> slot p 0 s' = "" /\ slot p 1 s' = "").
Proof.
  intros Hs. cbn zeta.
  destruct (announce_accepted_channel d w message options Hs) as (H1 & H2 & _).
  split; [exact H1 |]. split; [exact H2 |].
  unfold cursorSlot in *.
  destruct (Nat.eqb (indexRef (priorityOf options) (store w)) 0);
    cbn [otherSlot] in *.
  - split.
    + intros Hne. left. rewrite H1. repeat split; assumption.
    + intros He. rewrite H1 in *. split; assumption.
  - split.
    + intros Hne. right. rewrite H1. repeat split; assumption.
    + intros He. rewrite H1 in *. split; assumption.
Qed.

Lemma accepted_announce_result_witness :
  suppressed exampleWorld "Saved" (mkOptions None None) = false
  /\ slot polite 0
       (store (exec (LiveAnnouncerProvider.announce 7000 "Saved"
                       (mkOptions None None)) exampleWorld)) = "Saved"
  /\ slot polite 1
       (store (exec (LiveAnnouncerProvider.announce 7000 "Saved"
                       (mkOptions None None)) exampleWorld)) = "".
Proof.
  split; [reflexivity |].
  pose proof (accepted_announce_result 7000 exampleWorld "Saved"
                (mkOptions None None) eq_refl) as H.
  cbn zeta in H. destruct H as (H1 & H2 & _).
  split; [exact H1 | exact H2].
Defined.

(** ** The auto-clear timer *)

Lemma gtb_true_iff (d : Z) : (d >? 0)%Z = true <-> (0 < d)%Z.
Proof. rewrite Z.gtb_ltb. apply Z.ltb_lt. Qed.


Lemma timerInvariant_mount (d : Z) (h : Host) :
  timerInvariant d (LiveAnnouncerProvider.mount h).
Proof. split; [intros _; reflexivity | left; reflexivity]. Qed.

(** Cancelling the timer the ref names empties a pending list that obeys
    the invariant. *)
Lemma cancel_named_timer (d : Z) (w : World) :
  timerInvariant d w ->
  match clearTimeoutRef (store w) with
  | Some h =>
      filter (fun t => negb (Pos.eqb (timer_handle t) h)) (timers (host w))
  | None => timers (host w)
  end = [].
Proof.
  intros [_ [E | (t & E & Href)]]; rewrite E.
  - destruct (clearTimeoutRef (store w)); reflexivity.
  - rewrite Href. cbn. rewrite Pos.eqb_refl. reflexivity.
Qed.

(** With a positive delay, an accepted call leaves exactly one timer
    pending: the one it armed, due [hostDelay d] after the time of the call. *)
Lemma accepted_call_arms_one_timer (d : Z) (w : World) (message : string)
    (options : LiveAnnouncerOptions) :
  timerInvariant d w -> (0 < d)%Z ->
  suppressed w message options = false ->
  let w' := exec (LiveAnnouncerProvider.announce d message options) w in
  timers (host w')
  = [mkTimer (nextHandle (host w)) (clock (host w) + hostDelay d)
       CbClearAnnouncements]
  /\ clearTimeoutRef (store w') = Some (nextHandle (host w))
  /\ clock (host w') = clock (host w).
Proof.
  intros Hinv Hd Hs. cbn zeta.
  pose proof (announce_accepted_timer d w message options Hs) as H.
  cbn zeta in H. apply gtb_true_iff in Hd. rewrite Hd in H.
  destruct H as (Ht & Hr & _ & Hc).
  rewrite (cancel_named_timer d w Hinv) in Ht.
  repeat split; assumption.
Qed.

Lemma timerInvariant_announce (d : Z) (w : World) (message : string)
    (options : LiveAnnouncerOptions) :
  timerInvariant d w ->
  timerInvariant d (exec (LiveAnnouncerProvider.announce d message options) w).
Proof.
  intros Hinv. destruct (suppressed w message options) eqn:Hs.
  - unfold exec. rewrite (announce_suppressed_run d w message options Hs).
    exact Hinv.
  - destruct (d >? 0)%Z eqn:Hd.
    + apply gtb_true_iff in Hd.
      destruct (accepted_call_arms_one_timer d w message options Hinv Hd Hs)
        as (Ht & Hr & _).
      split; [intros Hle; lia |].
      right. eexists. split; [exact Ht | exact Hr].
    + pose proof (announce_accepted_timer d w message options Hs) as H.
      cbn zeta in H. rewrite Hd in H. destruct H as (Ht & Hr & _).
      unfold timerInvariant. rewrite Ht, Hr. exact Hinv.
Qed.

Lemma timerInvariant_cleared (d : Z) (w : World) :
  timerInvariant d w -> timerInvariant d (cleared w).
Proof. intros H. exact H. Qed.

Lemma timerInvariant_advance (d dt : Z) (w : World) :
  timerInvariant d w -> timerInvariant d (exec (advanceTimersByTime dt) w).
Proof.
  intros [H0 H1]. rewrite exec_advanceTimersByTime. cbn zeta.
  assert (Hinv : timerInvariant d
            (mkWorld (store w)
               (mkHost (clock (host w) + dt)
                  (filter (fun t => negb (isDue (clock (host w) + dt) t))
                     (timers (host w)))
                  (nextHandle (host w)) (random (host w)) (draws (host w))))).
  { split; cbn [host store timers].
    - intros Hle. rewrite (H0 Hle). reflexivity.
    - destruct H1 as [E | (t & E & Href)]; rewrite E; cbn [filter].
      + left; reflexivity.
      + destruct (negb (isDue (clock (host w) + dt) t)).
        * right. exists t. split; [reflexivity | exact Href].
        * left; reflexivity. }
  destruct (filter (isDue (clock (host w) + dt)) (timers (host w))).
  - exact Hinv.
  - apply timerInvariant_cleared. exact Hinv.
Qed.

Lemma timerInvariant_reachable (d : Z) (w : World) :
  reachable d w -> timerInvariant d w.
Proof.
  induction 1 as [h | w ev Hr IH Hwf].
  - apply timerInvariant_mount.
  - destruct ev as [message options | | dt]; cbn [step].
    + apply timerInvariant_announce; exact IH.
    + rewrite exec_clearAnnouncements. apply timerInvariant_cleared; exact IH.
    + apply timerInvariant_advance; exact IH.
Qed.


(** Time passing over a single pending timer: before it is due nothing
    happens to the store; from its due time on it has fired. *)
Lemma advance_over_one_timer (dt : Z) (w : World) (t : Timer) :
  timers (host w) = [t] ->
  let w' := exec (advanceTimersByTime dt) w in
  ((clock (host w) + dt < timer_due t)%Z ->
     store w' = store w /\ timers (host w') = [t])
  /\ ((timer_due t <= clock (host w) + dt)%Z ->
     allEmpty (store w') /\ memoryEmpty (store w') /\ timers (host w') = []).
Proof.
  intros E. cbn zeta. rewrite exec_advanceTimersByTime. cbn zeta. rewrite E.
  cbn [filter]. unfold isDue.
  destruct (timer_due t <=? clock (host w) + dt)%Z eqn:Hdue; cbn [negb].
  - apply Z.leb_le in Hdue. split; [intros Hlt; lia |].
    intros _. repeat split.
  - apply Z.leb_gt in Hdue. split; [| intros Hle; lia].
    intros _. split; reflexivity.
Qed.

Lemma advance_without_timers (dt : Z) (w : World) :
  timers (host w) = [] ->
  store (exec (advanceTimersByTime dt) w) = store w
  /\ timers (host (exec (advanceTimersByTime dt) w)) = [].
Proof.
  intros E. rewrite exec_advanceTimersByTime. cbn zeta. rewrite E.
  split; reflexivity.
Qed.


Lemma hostDelay_in_range (d : Z) :
  (0 < d <= TIMEOUT_MAX)%Z -> hostDelay d = d.
Proof.
  intros Hd. unfold hostDelay.
  destruct (d >? TIMEOUT_MAX)%Z eqn:E.
  - rewrite Z.gtb_ltb in E. apply Z.ltb_lt in E. lia.
  - lia.
Qed.





(** ** [clearAnnouncements] *)

(** C6. From any state, [clearAnnouncements] leaves all four slots empty and
    both memories reset to the empty message and identifier; it calls the
    four setters and no timer function, and the timer handle, the pending
    timers and the rest of the host are as they were. *)
Theorem clear_resets_slots_and_memory (w : World) :
  let w' := exec LiveAnnouncerProvider.clearAnnouncements w in
  allEmpty (store w')
  /\ memoryEmpty (store w')
  /\ clearTimeoutRef (store w') = clearTimeoutRef (store w)
  /\ host w' = host w
  /\ effects LiveAnnouncerProvider.clearAnnouncements w
     = [SetText Polite1 ""; SetText Polite2 ""; SetText Assertive1 "";
        SetText Assertive2 ""].
Proof.
  cbn zeta. unfold effects. rewrite exec_clearAnnouncements.
  rewrite clearAnnouncements_run. repeat split.
Qed.

(** C10. [clearAnnouncements] leaves both rotation cursors as they were.
    Any [announce] that follows it is accepted, and its message goes to the
    slot the cursor of its channel pointed at before the clear.  That slot
    can be slot 1: after one announcement and a clear, the next message on the
    same channel lands in the second region. *)
Theorem clear_keeps_cursors (d : Z) (w : World) (message : string)
    (options : LiveAnnouncerOptions) :
  let wc := exec LiveAnnouncerProvider.clearAnnouncements w in
  let p := priorityOf options in
  let k := cursorSlot p (store w) in
  politeIndexRef (store wc) = politeIndexRef (store w)
  /\ assertiveIndexRef (store wc) = assertiveIndexRef (store w)
  /\ suppressed wc message options = false
  /\ effects (LiveAnnouncerProvider.announce d message options) wc
     = [SetText (region p k) message; SetText (region p (otherSlot k)) ""]
       ++ timerEffects d wc
  /\ slot p k (store (exec (LiveAnnouncerProvider.announce d message options) wc))
     = message
  /\ (exists w0,
        reachable d w0
        /\ cursorSlot polite (store w0) = 1%nat
        /\ effects (LiveAnnouncerProvider.announce d "b" (mkOptions None None))
             (exec LiveAnnouncerProvider.clearAnnouncements w0)
           = [SetText Polite2 "b"; SetText Polite1 ""]
             ++ timerEffects d (exec LiveAnnouncerProvider.clearAnnouncements w0)).
Proof.
  cbn zeta. rewrite exec_clearAnnouncements.
  assert (Hs : suppressed (cleared w) message options = false).
  { apply suppressed_false_iff. intros (i & _ & Hne & Hid & _).
    apply Hne. rewrite Hid. destruct (priorityOf options); reflexivity. }
  split; [reflexivity |]. split; [reflexivity |]. split; [exact Hs |].
  assert (Hk : cursorSlot (priorityOf options) (store (cleared w))
               = cursorSlot (priorityOf options) (store w)).
  { unfold cursorSlot. rewrite indexRef_cleared. reflexivity. }
  split.
  { rewrite (announce_accepted_effects d _ message options Hs). cbn zeta.
    rewrite Hk. reflexivity. }
  split.
  { destruct (announce_accepted_channel d _ message options Hs) as (H1 & _).
    rewrite Hk in H1. exact H1. }
  exists (exec (step d (EvAnnounce "a" (mkOptions None None)))
            (LiveAnnouncerProvider.mount exampleHost)).
  split; [apply reach_step; [apply reach_mount | exact I] |].
  assert (Ha : suppressed (LiveAnnouncerProvider.mount exampleHost) "a"
                 (mkOptions None None) = false) by reflexivity.
  destruct (announce_accepted_channel d _ "a" (mkOptions None None) Ha)
    as (_ & _ & Hi & _).
  cbn [step].
  assert (Hc : cursorSlot polite
                 (store (exec (LiveAnnouncerProvider.announce d "a"
                                 (mkOptions None None))
                           (LiveAnnouncerProvider.mount exampleHost))) = 1%nat).
  { unfold cursorSlot. change (priorityOf (mkOptions None None)) with polite in Hi.
    rewrite Hi. reflexivity. }
  split; [exact Hc |].
  rewrite exec_clearAnnouncements.
  assert (Hb : suppressed
                 (cleared (exec (LiveAnnouncerProvider.announce d "a"
                                   (mkOptions None None))
                             (LiveAnnouncerProvider.mount exampleHost)))
                 "b" (mkOptions None None) = false) by reflexivity.
  rewrite (announce_accepted_effects d _ "b" (mkOptions None None) Hb).
  cbn zeta. change (priorityOf (mkOptions None None)) with polite.
  unfold cursorSlot at 1 2. rewrite indexRef_cleared.
  unfold cursorSlot in Hc.
  destruct (Nat.eqb (indexRef polite
              (store (exec (LiveAnnouncerProvider.announce d "a"
                              (mkOptions None None))
                        (LiveAnnouncerProvider.mount exampleHost)))) 0).
  - discriminate Hc.
  - reflexivity.
Qed.

(** ** The rapid-calls scenario *)

Lemma different_message_is_accepted (w : World) (message : string)
    (options : LiveAnnouncerOptions) :
  st_message (lastRef (priorityOf options) (store w)) <> message ->
  suppressed w message options = false.
Proof.
  intros H. apply suppressed_false_iff. intros (i & _ & _ & _ & Hm).
  apply H. symmetry. exact Hm.
Qed.

(** C7, as stated, fails: after the three calls on a fresh provider the
    text of slot 1 of the normal channel is empty, not ["Msg 3"]; the third
    message is in slot 0. *)
Lemma third_message_is_not_in_slot_1 :
  slot polite 0 (store afterThreeRapidCalls) = "Msg 3"
  /\ slot polite 1 (store afterThreeRapidCalls) = ""
  /\ slot polite 1 (store afterThreeRapidCalls) <> "Msg 3".
Proof. split; [reflexivity |]. split; [reflexivity | discriminate]. Qed.

(** C7 (amended). On a freshly mounted provider, the calls
    [announcePolite("Msg 1", "1")], [announcePolite("Msg 2", "2")],
    [announcePolite("Msg 3", "3")] are all accepted; the cursor of the normal
    channel goes 0, 1, 0, 1; the messages are set in slot 0, slot 1 and slot 0
    in turn; at the end slot 0 holds ["Msg 3"] and slot 1 is empty. *)
Theorem three_rapid_calls (d : Z) (h : Host) :
  let w0 := LiveAnnouncerProvider.mount h in
  let w1 := exec (LiveAnnouncerProvider.announcePolite d "Msg 1" (Some "1")) w0 in
  let w2 := exec (LiveAnnouncerProvider.announcePolite d "Msg 2" (Some "2")) w1 in
  let w3 := exec (LiveAnnouncerProvider.announcePolite d "Msg 3" (Some "3")) w2 in
  (politeIndexRef (store w0) = 0 /\ politeIndexRef (store w1) = 1
   /\ politeIndexRef (store w2) = 0 /\ politeIndexRef (store w3) = 1)%nat
  /\ effects (LiveAnnouncerProvider.announcePolite d "Msg 1" (Some "1")) w0
     = [SetText Polite1 "Msg 1"; SetText Polite2 ""] ++ timerEffects d w0
  /\ effects (LiveAnnouncerProvider.announcePolite d "Msg 2" (Some "2")) w1
     = [SetText Polite2 "Msg 2"; SetText Polite1 ""] ++ timerEffects d w1
  /\ effects (LiveAnnouncerProvider.announcePolite d "Msg 3" (Some "3")) w2
     = [SetText Polite1 "Msg 3"; SetText Polite2 ""] ++ timerEffects d w2
  /\ slot polite 0 (store w3) = "Msg 3"
  /\ slot polite 1 (store w3) = "".
Proof.
  cbn zeta. unfold LiveAnnouncerProvider.announcePolite.
  set (o1 := mkOptions (Some polite) (Some "1")).
  set (o2 := mkOptions (Some polite) (Some "2")).
  set (o3 := mkOptions (Some polite) (Some "3")).
  set (w0 := LiveAnnouncerProvider.mount h).
  set (w1 := exec (LiveAnnouncerProvider.announce d "Msg 1" o1) w0).
  set (w2 := exec (LiveAnnouncerProvider.announce d "Msg 2" o2) w1).
  assert (S1 : suppressed w0 "Msg 1" o1 = false) by reflexivity.
  pose proof (announce_accepted_channel d w0 "Msg 1" o1 S1) as C1.
  pose proof (announce_accepted_effects d w0 "Msg 1" o1 S1) as E1.
  cbn zeta in C1, E1. fold w1 in C1.
  change (priorityOf o1) with polite in C1, E1.
  change (cursorSlot polite (store w0)) with 0%nat in C1, E1.
  cbn [otherSlot region] in C1, E1. destruct C1 as (_ & _ & I1 & M1).
  assert (S2 : suppressed w1 "Msg 2" o2 = false).
  { apply different_message_is_accepted. change (priorityOf o2) with polite.
    rewrite M1. discriminate. }
  pose proof (announce_accepted_channel d w1 "Msg 2" o2 S2) as C2.
  pose proof (announce_accepted_effects d w1 "Msg 2" o2 S2) as E2.
  cbn zeta in C2, E2. fold w2 in C2.
  change (priorityOf o2) with polite in C2, E2.
  unfold cursorSlot in C2, E2. rewrite I1 in C2, E2.
  cbn [Nat.eqb otherSlot region] in C2, E2. destruct C2 as (_ & _ & I2 & M2).
  assert (S3 : suppressed w2 "Msg 3" o3 = false).
  { apply different_message_is_accepted. change (priorityOf o3) with polite.
    rewrite M2. discriminate. }
  pose proof (announce_accepted_channel d w2 "Msg 3" o3 S3) as C3.
  pose proof (announce_accepted_effects d w2 "Msg 3" o3 S3) as E3.
  cbn zeta in C3, E3.
  change (priorityOf o3) with polite in C3, E3.
  unfold cursorSlot in C3, E3. rewrite I2 in C3, E3.
  cbn [Nat.eqb otherSlot region] in C3, E3.
  destruct C3 as (T0 & T1 & I3 & _).
  cbn [indexRef] in I1, I2, I3.
  repeat split; assumption || reflexivity.
Qed.

(** ** [LiveAnnouncerMessage] *)

Lemma strict_neq_opt_false_iff (a b : option string) :
  strict_neq_opt a b = false <-> a = b.
Proof.
  destruct a as [x |], b as [y |]; cbn; split; try congruence.
  - rewrite negb_false_iff, String.eqb_eq. congruence.
  - intros E. inversion E. rewrite negb_false_iff. apply String.eqb_refl.
Qed.

Lemma strict_neq_opt_true_iff (a b : option string) :
  strict_neq_opt a b = true <-> a <> b.
Proof.
  rewrite <- strict_neq_opt_false_iff.
  destruct (strict_neq_opt a b); split; congruence.
Qed.

(** The test of the effect, in words. *)
Lemma shouldAnnounce_true_iff (message : string) (id : option string)
    (inst : MessageInstance) :
  shouldAnnounce message id inst = true
  <-> message <> ""
      /\ (message <> previousMessageRef inst \/ id <> previousIdRef inst).
Proof.
  unfold shouldAnnounce.
  rewrite andb_true_iff, orb_true_iff, truthy_true_iff, negb_true_iff,
    String.eqb_neq, strict_neq_opt_true_iff.
  reflexivity.
Qed.

Lemma shouldAnnounce_false_unchanged (message : string) (id : option string)
    (inst : MessageInstance) :
  message <> "" -> shouldAnnounce message id inst = false ->
  previousMessageRef inst = message /\ previousIdRef inst = id.
Proof.
  unfold shouldAnnounce. intros Hne H.
  apply truthy_true_iff in Hne. rewrite Hne in H. cbn [andb] in H.
  apply orb_false_iff in H. destruct H as [Hm Hi].
  apply negb_false_iff, String.eqb_eq in Hm.
  apply strict_neq_opt_false_iff in Hi. split; congruence.
Qed.

Lemma instanceInvariant_render {S : Type} (ctx : LiveAnnouncerContextValue S)
    (announceChanged : bool) (props : LiveAnnouncerMessageProps)
    (inst inst' : MessageInstance) (s s' : S) :
  instanceInvariant inst ->
  LiveAnnouncerMessage (Some ctx) announceChanged props inst s = Ok (inst', s') ->
  instanceInvariant inst'.
Proof.
  unfold LiveAnnouncerMessage, announceEffect. cbn [useLiveAnnouncer].
  intros Hinv.
  destruct (depsChanged announceChanged (lastDeps inst) (prop_message props)
              match prop_priority props with Some p => p | None => polite end
              (prop_id props)).
  - destruct (shouldAnnounce (prop_message props) (prop_id props) inst) eqn:Hsh;
      intros E; inversion E; subst; unfold instanceInvariant;
      cbn [lastDeps previousMessageRef previousIdRef].
    + right. split; reflexivity.
    + destruct (String.eqb_spec (prop_message props) "") as [Hm | Hm].
      * left. exact Hm.
      * right. apply shouldAnnounce_false_unchanged; assumption.
  - intros E; inversion E; subst. exact Hinv.
Qed.

Lemma instanceInvariant_reachable (inst : MessageInstance) :
  instanceReachable inst -> instanceInvariant inst.
Proof.
  induction 1 as [| S ctx ch props inst inst' s s' Hr IH Hrender].
  - exact I.
  - exact (instanceInvariant_render ctx ch props inst inst' s s' IH Hrender).
Qed.

(** When React skips the effect because no dependency changed, the test of
    the effect would have failed anyway. *)
Lemma skipped_effect_would_not_announce (announceChanged : bool)
    (props : LiveAnnouncerMessageProps) (inst : MessageInstance) :
  instanceInvariant inst ->
  depsChanged announceChanged (lastDeps inst) (prop_message props)
    match prop_priority props with Some p => p | None => polite end
    (prop_id props) = false ->
  shouldAnnounce (prop_message props) (prop_id props) inst = false.
Proof.
  unfold instanceInvariant, depsChanged.
  destruct (lastDeps inst) as [[[m0 p0] i0] |]; [| discriminate].
  intros Hinv H.
  apply orb_false_iff in H. destruct H as [H _].
  apply orb_false_iff in H. destruct H as [H Hi].
  apply orb_false_iff in H. destruct H as [Hm _].
  apply negb_false_iff, String.eqb_eq in Hm.
  apply strict_neq_opt_false_iff in Hi. subst m0 i0.
  unfold shouldAnnounce. destruct Hinv as [He | [Hpm Hpi]].
  - rewrite He. reflexivity.
  - rewrite Hpm, Hpi, String.eqb_refl.
    replace (strict_neq_opt (prop_id props) (prop_id props)) with false
      by (symmetry; apply strict_neq_opt_false_iff; reflexivity).
    apply andb_false_r.
Qed.

(** C8. On every render of a [LiveAnnouncerMessage] inside a provider,
    [announce] is called -- once, with the message, the priority and the
    identifier of the props -- if and only if the message is not empty and
    the message or the identifier differs from the one the refs hold; the
    refs then take the new pair.  Otherwise [announce] is not called and the
    refs keep their pair. *)
Theorem change_triggered_announcement (S : Type)
    (ctx : LiveAnnouncerContextValue S) (announceChanged : bool)
    (props : LiveAnnouncerMessageProps) (inst : MessageInstance) (s : S) :
  instanceReachable inst ->
  let message := prop_message props in
  let id := prop_id props in
  let options :=
    mkOptions
      (Some match prop_priority props with Some p => p | None => polite end) id in
  let changed :=
    message <> ""
    /\ (message <> previousMessageRef inst \/ id <> previousIdRef inst) in
  (changed ->
   exists inst',
     LiveAnnouncerMessage (Some ctx) announceChanged props inst s
     = Ok (inst', announce ctx message options s)
     /\ previousMessageRef inst' = message /\ previousIdRef inst' = id)
  /\ (~ changed ->
      exists inst',
        LiveAnnouncerMessage (Some ctx) announceChanged props inst s
        = Ok (inst', s)
        /\ previousMessageRef inst' = previousMessageRef inst
        /\ previousIdRef inst' = previousIdRef inst)
  /\ (forall calls : list Call,
        exists inst' calls',
          LiveAnnouncerMessage (Some spyContext) announceChanged props inst calls
          = Ok (inst', calls')
          /\ (calls' = CallAnnounce message options :: calls <-> changed)
          /\ (calls' = calls <-> ~ changed)).
Proof.
  intros Hr. cbn zeta. apply instanceInvariant_reachable in Hr.
  assert (Hrun : forall (T : Type) (c : LiveAnnouncerContextValue T) (t : T),
     exists inst',
       LiveAnnouncerMessage (Some c) announceChanged props inst t
       = Ok (inst',
             if shouldAnnounce (prop_message props) (prop_id props) inst
             then announce c (prop_message props)
                    (mkOptions
                       (Some match prop_priority props with
                             | Some p => p
                             | None => polite
                             end) (prop_id props)) t
             else t)
       /\ previousMessageRef inst'
          = (if shouldAnnounce (prop_message props) (prop_id props) inst
             then prop_message props else previousMessageRef inst)
       /\ previousIdRef inst'
          = (if shouldAnnounce (prop_message props) (prop_id props) inst
             then prop_id props else previousIdRef inst)).
  { intros T c t. unfold LiveAnnouncerMessage, announceEffect.
    cbn [useLiveAnnouncer].
    destruct (depsChanged announceChanged (lastDeps inst) (prop_message props)
                match prop_priority props with Some p => p | None => polite end
                (prop_id props)) eqn:Hdeps.
    - destruct (shouldAnnounce (prop_message props) (prop_id props) inst);
        eexists; repeat split.
    - rewrite (skipped_effect_would_not_announce announceChanged props inst Hr Hdeps).
      eexists; repeat split. }
  pose proof (shouldAnnounce_true_iff (prop_message props) (prop_id props) inst)
    as Hiff.
  split; [| split].
  - intros Hc. apply Hiff in Hc. destruct (Hrun S ctx s) as (inst' & E & Hm & Hi).
    rewrite Hc in E, Hm, Hi. exists inst'. repeat split; assumption.
  - intros Hn. destruct (Hrun S ctx s) as (inst' & E & Hm & Hi).
    destruct (shouldAnnounce (prop_message props) (prop_id props) inst).
    + contradiction Hn. apply Hiff. reflexivity.
    + exists inst'. repeat split; assumption.
  - intros calls. destruct (Hrun _ spyContext calls) as (inst' & E & _).
    destruct (shouldAnnounce (prop_message props) (prop_id props) inst) eqn:Hsh;
      cbn [announce spyContext] in E; eexists; eexists; (split; [exact E |]).
    + split; split.
      * intros _. apply Hiff. reflexivity.
      * reflexivity.
      * intros C. exfalso.
        apply (f_equal (@length Call)) in C. cbn in C. lia.
      * intros Hn. contradiction Hn. apply Hiff. reflexivity.
    + assert (Hn : ~ (prop_message props <> ""
                      /\ (prop_message props <> previousMessageRef inst
                          \/ prop_id props <> previousIdRef inst))).
      { intros Hc. apply Hiff in Hc. discriminate Hc. }
      split; split.
      * intros C. exfalso.
        apply (f_equal (@length Call)) in C. cbn in C. lia.
      * intros Hc. contradiction.
      * intros _. exact Hn.
      * reflexivity.
Qed.

Lemma change_triggered_announcement_witness :
  instanceReachable initialInstance
  /\ exists inst',
       LiveAnnouncerMessage (Some spyContext) false
         (mkMessageProps "First" None None None) initialInstance []
       = Ok (inst', [CallAnnounce "First" (mkOptions (Some polite) None)])
       /\ previousMessageRef inst' = "First" /\ previousIdRef inst' = None.
Proof.
  split; [exact ir_mount |].
  apply (proj1 (change_triggered_announcement (list Call) spyContext false
                  (mkMessageProps "First" None None None) initialInstance []
                  ir_mount)).
  split; [discriminate | left; discriminate].
Defined.

(** ** Errors *)

(** C9. Outside any provider each of the four operations fails with the
    error of [useLiveAnnouncer], and so does rendering a
    [LiveAnnouncerMessage].  Inside a provider no operation fails, whatever
    its arguments and whatever the state: it returns the state its closure
    computes. *)
Theorem operations_fail_only_outside_provider :
  (forall (S : Type) (op : Operation) (s : S),
     invoke None op s
     = Throw "useLiveAnnouncer must be used within a LiveAnnouncerProvider")
  /\ (forall (S : Type) announceChanged props inst (s : S),
        LiveAnnouncerMessage None announceChanged props inst s
        = Throw "useLiveAnnouncer must be used within a LiveAnnouncerProvider")
  /\ (forall (S : Type) (ctx : LiveAnnouncerContextValue S) (op : Operation)
        (s : S), exists s', invoke (Some ctx) op s = Ok s')
  /\ (forall (d : Z) (w : World),
        (forall message options,
           invoke (Some (contextValue d)) (DoAnnounce message options) w
           = Ok (exec (LiveAnnouncerProvider.announce d message options) w))
        /\ (forall message id,
              invoke (Some (contextValue d)) (DoAnnouncePolite message id) w
              = Ok (exec (LiveAnnouncerProvider.announce d message
                            (mkOptions (Some polite) id)) w))
        /\ (forall message id,
              invoke (Some (contextValue d)) (DoAnnounceAssertive message id) w
              = Ok (exec (LiveAnnouncerProvider.announce d message
                            (mkOptions (Some assertive) id)) w))
        /\ invoke (Some (contextValue d)) DoClearAnnouncements w
           = Ok (exec LiveAnnouncerProvider.clearAnnouncements w)).
Proof.
  split; [| split; [| split]].
  - intros S op s. reflexivity.
  - intros S announceChanged props inst s. reflexivity.
  - intros S ctx op s. destruct op; eexists; reflexivity.
  - intros d w. repeat split.
Qed.

(** * Further properties of the provider *)

(** ** Channels are independent *)

Lemma region_other_channel (p : LiveAnnouncerPriority) (i j : nat) :
  region p i <> region (otherPriority p) j.
Proof. destruct p, i, j; cbn; discriminate. Qed.

(** X1. A call of [announce], accepted or not, leaves the channel it does not
    address exactly as it was -- both slot texts, the cursor and the memory --
    and calls no setter of that channel's regions. *)
Theorem announce_leaves_other_channel (d : Z) (w : World) (message : string)
    (options : LiveAnnouncerOptions) :
  let q := otherPriority (priorityOf options) in
  let s' := store (exec (LiveAnnouncerProvider.announce d message options) w) in
  slot q 0 s' = slot q 0 (store w)
  /\ slot q 1 s' = slot q 1 (store w)
  /\ indexRef q s' = indexRef q (store w)
  /\ lastRef q s' = lastRef q (store w)
  /\ (forall i v,
        ~ In (SetText (region q i) v)
            (effects (LiveAnnouncerProvider.announce d message options) w)).
Proof.
  cbn zeta.
  destruct (announce_other_channel d w message options) as (H0 & H1 & Hi & Hl).
  repeat (split; [assumption |]).
  intros i v Hin. destruct (suppressed w message options) eqn:Hs.
  - unfold effects in Hin.
    rewrite (announce_suppressed_run d w message options Hs) in Hin. exact Hin.
  - rewrite (announce_accepted_effects d w message options Hs) in Hin.
    cbn zeta in Hin. unfold timerEffects in Hin.
    cbn [app In] in Hin.
    destruct Hin as [E | [E | Hin]].
    + inversion E as [[Hr Hv]].
      exact (region_other_channel _ _ _ Hr).
    + inversion E as [[Hr Hv]].
      exact (region_other_channel _ _ _ Hr).
    + destruct (d >? 0)%Z; [| exact Hin].
      destruct (clearTimeoutRef (store w)); cbn in Hin;
        repeat (destruct Hin as [E | Hin]; [discriminate E |]); exact Hin.
Qed.

(** ** The slot under the cursor is always empty *)

Lemma otherSlot_le_1 (k : nat) : (otherSlot k <= 1)%nat.
Proof. destruct k; cbn; lia. Qed.

Lemma cursorSlot_of_small_index (p : LiveAnnouncerPriority) (s : Store) :
  (indexRef p s <= 1)%nat -> cursorSlot p s = indexRef p s.
Proof.
  unfold cursorSlot. intros H.
  destruct (indexRef p s) as [| [| n]]; cbn; [reflexivity | reflexivity | lia].
Qed.

Lemma otherSlot_involutive (k : nat) :
  (k <= 1)%nat -> otherSlot (otherSlot k) = k.
Proof. destruct k as [| [| n]]; cbn; intros H; [reflexivity | reflexivity | lia]. Qed.

Lemma rotationInvariant_mount (h : Host) :
  rotationInvariant (LiveAnnouncerProvider.mount h).
Proof. intros [ | ]; cbn; repeat split; lia. Qed.

Lemma rotationInvariant_cleared (w : World) :
  rotationInvariant w -> rotationInvariant (cleared w).
Proof.
  intros H p. destruct (H p) as (Hle & _ & _).
  rewrite indexRef_cleared. split; [exact Hle |].
  destruct p; cbn in *;
    destruct (politeIndexRef (store w)), (assertiveIndexRef (store w));
    cbn; repeat split.
Qed.

Lemma rotationInvariant_announce (d : Z) (w : World) (message : string)
    (options : LiveAnnouncerOptions) :
  rotationInvariant w ->
  rotationInvariant (exec (LiveAnnouncerProvider.announce d message options) w).
Proof.
  intros H. destruct (suppressed w message options) eqn:Hs.
  - unfold exec. rewrite (announce_suppressed_run d w message options Hs).
    exact H.
  - intros p.
    destruct (otherPriority_cases (priorityOf options) p) as [E | E].
    + subst p. destruct (H (priorityOf options)) as (Hle & _ & _).
      destruct (announce_accepted_channel d w message options Hs)
        as (Hk & Ho & Hi & Hm).
      rewrite (cursorSlot_of_small_index _ _ Hle) in Hk, Ho, Hi.
      rewrite Hi. split; [apply otherSlot_le_1 |]. split; [exact Ho |].
      rewrite (otherSlot_involutive _ Hle), Hk, Hm. reflexivity.
    + subst p. destruct (H (otherPriority (priorityOf options))) as (Hle & He & Hl).
      destruct (announce_other_channel d w message options)
        as (H0 & H1 & Hi & Hm).
      rewrite Hi, Hm. split; [exact Hle |].
      destruct (indexRef (otherPriority (priorityOf options)) (store w))
        as [| [| n]]; cbn [otherSlot] in *; [| | lia].
      * rewrite H0, H1. split; assumption.
      * rewrite H0, H1. split; assumption.
Qed.

Lemma rotationInvariant_advance (dt : Z) (w : World) :
  rotationInvariant w -> rotationInvariant (exec (advanceTimersByTime dt) w).
Proof.
  intros H. rewrite exec_advanceTimersByTime. cbn zeta.
  destruct (filter _ (timers (host w))).
  - exact H.
  - apply (rotationInvariant_cleared
             (mkWorld (store w)
                (mkHost (clock (host w) + dt)
                   (filter (fun t => negb (isDue (clock (host w) + dt) t))
                      (timers (host w)))
                   (nextHandle (host w)) (random (host w)) (draws (host w))))).
    exact H.
Qed.

Lemma rotationInvariant_reachable (d : Z) (w : World) :
  reachable d w -> rotationInvariant w.
Proof.
  induction 1 as [h | w ev Hr IH Hwf].
  - apply rotationInvariant_mount.
  - destruct ev as [message options | | dt]; cbn [step].
    + apply rotationInvariant_announce; exact IH.
    + rewrite exec_clearAnnouncements. apply rotationInvariant_cleared; exact IH.
    + apply rotationInvariant_advance; exact IH.
Qed.

(** X2. In every state a mounted provider can reach, on each channel the
    cursor is 0 or 1, the slot under the cursor is empty and the other slot
    shows the message held in the channel's memory.  So an accepted
    [announce] always sets its message in a region that was empty, and empties
    the region that showed the previous message. *)
Theorem accepted_write_lands_in_empty_slot (d : Z) (w : World) :
  reachable d w ->
  rotationInvariant w
  /\ (forall message options,
        suppressed w message options = false ->
        let p := priorityOf options in
        let k := cursorSlot p (store w) in
        hd_error (effects (LiveAnnouncerProvider.announce d message options) w)
        = Some (SetText (region p k) message)
        /\ text (region p k) (store w) = ""
        /\ text (region p (otherSlot k)) (store w)
           = st_message (lastRef p (store w))).
Proof.
  intros Hr. pose proof (rotationInvariant_reachable d w Hr) as Hinv.
  split; [exact Hinv |].
  intros message options Hs. cbn zeta.
  rewrite (announce_accepted_effects d w message options Hs). cbn zeta.
  split; [reflexivity |].
  destruct (Hinv (priorityOf options)) as (Hle & He & Hl).
  rewrite (cursorSlot_of_small_index _ _ Hle).
  split; [exact He | exact Hl].
Qed.

Lemma accepted_write_lands_in_empty_slot_witness :
  reachable 7000
    (exec (step 7000 (EvAnnounce "Saved" (mkOptions None None))) exampleWorld)
  /\ rotationInvariant
       (exec (step 7000 (EvAnnounce "Saved" (mkOptions None None))) exampleWorld).
Proof.
  assert (Hr : reachable 7000
                 (exec (step 7000 (EvAnnounce "Saved" (mkOptions None None)))
                    exampleWorld)).
  { apply reach_step; [apply (reach_mount 7000 exampleHost) | exact I]. }
  split; [exact Hr |].
  exact (proj1 (accepted_write_lands_in_empty_slot 7000 _ Hr)).
Defined.

(** ** Identifiers and the memory *)

Lemma append_nonempty_r (a b : string) : b <> "" -> (a ++ b)%string <> "".
Proof. destruct a; cbn; [intros H; exact H | discriminate]. Qed.

(** [generateId] never returns the empty string: its result contains the
    ["-"] of the template. *)
Lemma generateId_nonempty (w : World) :
  fst (fst (LiveAnnouncerProvider.generateId w)) <> "".
Proof.
  unfold LiveAnnouncerProvider.generateId. cbn [fst].
  apply append_nonempty_r. discriminate.
Qed.

Lemma lastRef_cleared (p : LiveAnnouncerPriority) (w : World) :
  lastRef p (store (cleared w)) = mkAnnouncementState "" "".
Proof. destruct p; reflexivity. Qed.

Lemma memoryInvariant_announce (d : Z) (w : World) (message : string)
    (options : LiveAnnouncerOptions) :
  memoryInvariant w ->
  memoryInvariant (exec (LiveAnnouncerProvider.announce d message options) w).
Proof.
  intros H. destruct (suppressed w message options) eqn:Hs.
  - unfold exec. rewrite (announce_suppressed_run d w message options Hs).
    exact H.
  - intros p.
    destruct (otherPriority_cases (priorityOf options) p) as [E | E].
    + subst p. right.
      rewrite (announce_accepted_id d w message options Hs).
      destruct (opt_id options) as [i |].
      * destruct (truthy i) eqn:Ht.
        -- apply truthy_true_iff. exact Ht.
        -- apply generateId_nonempty.
      * apply generateId_nonempty.
    + subst p.
      destruct (announce_other_channel d w message options) as (_ & _ & _ & Hm).
      rewrite Hm. apply H.
Qed.

Lemma memoryInvariant_reachable (d : Z) (w : World) :
  reachable d w -> memoryInvariant w.
Proof.
  induction 1 as [h | w ev Hr IH Hwf].
  - intros [ | ]; left; reflexivity.
  - destruct ev as [message options | | dt]; cbn [step].
    + apply memoryInvariant_announce; exact IH.
    + rewrite exec_clearAnnouncements. intros p. left. apply lastRef_cleared.
    + rewrite exec_advanceTimersByTime. cbn zeta.
      destruct (filter _ (timers (host w))).
      * exact IH.
      * intros p. left. apply lastRef_cleared.
Qed.

(** X3. In every reachable state a channel's memory is either the empty
    pair or carries a non-empty identifier (the caller's, or a generated one,
    which always contains a dash).  Hence the guard of [announce] departs from
    the rule "an identifier was given, it equals the last identifier and the
    message equals the last message" in one situation only: the memory is the
    empty pair and the call is [announce("", { id: "" })]. *)
Theorem memory_identifier_is_never_empty (d : Z) (w : World) :
  reachable d w ->
  memoryInvariant w
  /\ (forall message options,
        explicitDuplicate w message options
        <-> (suppressed w message options = true
             \/ (message = "" /\ opt_id options = Some ""
                 /\ lastRef (priorityOf options) (store w)
                    = mkAnnouncementState "" ""))).
Proof.
  intros Hr. pose proof (memoryInvariant_reachable d w Hr) as Hinv.
  split; [exact Hinv |].
  intros message options. rewrite suppressed_true_iff.
  unfold explicitDuplicate, nonEmptyDuplicate. cbn zeta. split.
  - intros (i & Hi & Hid & Hm).
    destruct (String.eqb_spec i "") as [E | E].
    + right.
      destruct (Hinv (priorityOf options)) as [He | Hne].
      * split; [rewrite Hm, He; reflexivity |].
        split; [rewrite Hi, E; reflexivity | exact He].
      * contradiction Hne. rewrite <- Hid. exact E.
    + left. exists i. repeat split; assumption.
  - intros [(i & Hi & _ & Hid & Hm) | (Hm & Hi & He)].
    + exists i. repeat split; assumption.
    + exists "". rewrite He. repeat split; assumption.
Qed.

Lemma memory_identifier_is_never_empty_witness :
  reachable 7000
    (exec (step 7000 (EvAnnounce "Saved" (mkOptions None None))) exampleWorld)
  /\ st_id (lastPoliteRef
              (store (exec (step 7000 (EvAnnounce "Saved" (mkOptions None None)))
                        exampleWorld)))
     <> "".
Proof.
  assert (Hr : reachable 7000
                 (exec (step 7000 (EvAnnounce "Saved" (mkOptions None None)))
                    exampleWorld)).
  { apply reach_step; [apply (reach_mount 7000 exampleHost) | exact I]. }
  split; [exact Hr |].
  destruct (proj1 (memory_identifier_is_never_empty 7000 _ Hr) polite)
    as [He | Hne].
  - discriminate He.
  - exact Hne.
Defined.

(** An [announce] with a non-empty identifier leaves the pair of its
    message and identifier in the channel's memory, whether it was accepted
    or suppressed. *)
Lemma identified_call_is_remembered (d : Z) (w : World) (message i : string)
    (pr : option LiveAnnouncerPriority) :
  i <> "" ->
  lastRef (priorityOf (mkOptions pr (Some i)))
    (store (exec (LiveAnnouncerProvider.announce d message (mkOptions pr (Some i))) w))
  = mkAnnouncementState message i.
Proof.
  intros Hi. set (o := mkOptions pr (Some i)).
  destruct (suppressed w message o) eqn:Hs.
  - unfold exec. rewrite (announce_suppressed_run d w message o Hs). cbn [fst snd].
    apply suppressed_true_iff in Hs. destruct Hs as (j & Hj & _ & Hid & Hm).
    cbn in Hj. injection Hj as Hj. rewrite <- Hj in Hid.
    destruct (lastRef (priorityOf o) (store w)) as [lm li]. cbn in Hid, Hm.
    rewrite Hid, Hm. reflexivity.
  - destruct (announce_accepted_channel d w message o Hs) as (_ & _ & _ & Hm).
    pose proof (announce_accepted_id d w message o Hs) as Hid.
    cbn zeta in Hid. cbn [o opt_id] in Hid.
    apply truthy_true_iff in Hi. rewrite Hi in Hid.
    destruct (lastRef (priorityOf o)
                (store (exec (LiveAnnouncerProvider.announce d message o) w)))
      as [lm li].
    cbn in Hm, Hid. rewrite Hm, Hid. reflexivity.
Qed.

(** X4. Announcing the same message with the same non-empty identifier twice
    in a row is the same as announcing it once: from any state, the second
    call changes nothing and calls no setter and no timer function. *)
Theorem identified_announce_is_idempotent (d : Z) (w : World)
    (message i : string) (pr : option LiveAnnouncerPriority) :
  i <> "" ->
  let call := LiveAnnouncerProvider.announce d message (mkOptions pr (Some i)) in
  exec call (exec call w) = exec call w
  /\ effects call (exec call w) = [].
Proof.
  intros Hi. cbn zeta.
  set (o := mkOptions pr (Some i)).
  assert (Hs : suppressed (exec (LiveAnnouncerProvider.announce d message o) w)
                 message o = true).
  { apply suppressed_true_iff. exists i.
    pose proof (identified_call_is_remembered d w message i pr Hi) as Hrem.
    fold o in Hrem. rewrite Hrem.
    split; [reflexivity |]. split; [exact Hi |]. split; reflexivity. }
  unfold exec at 1, effects.
  rewrite (announce_suppressed_run d _ message o Hs). split; reflexivity.
Qed.

Lemma identified_announce_is_idempotent_witness :
  "x" <> ""
  /\ effects (LiveAnnouncerProvider.announce 7000 "Saved" (mkOptions None (Some "x")))
       (exec (LiveAnnouncerProvider.announce 7000 "Saved" (mkOptions None (Some "x")))
          exampleWorld)
     = [].
Proof.
  assert (H : "x" <> "") by discriminate.
  split; [exact H |].
  exact (proj2 (identified_announce_is_idempotent 7000 exampleWorld "Saved" "x"
                  None H)).
Defined.

(** X5. After [announce(message, { id: i })] with a non-empty [i], the next
    call on the same channel is suppressed exactly when it repeats both the
    message and the identifier; any other identifier (or none) and any other
    message is accepted. *)
Theorem only_the_last_pair_is_suppressed (d : Z) (w : World)
    (message i message' : string) (pr : option LiveAnnouncerPriority)
    (options' : LiveAnnouncerOptions) :
  i <> "" ->
  priorityOf options' = priorityOf (mkOptions pr (Some i)) ->
  let w1 :=
    exec (LiveAnnouncerProvider.announce d message (mkOptions pr (Some i))) w in
  suppressed w1 message' options' = true
  <-> (message' = message /\ opt_id options' = Some i).
Proof.
  intros Hi Hp. cbn zeta. rewrite suppressed_true_iff.
  unfold nonEmptyDuplicate. cbn zeta. rewrite Hp.
  rewrite (identified_call_is_remembered d w message i pr Hi). cbn [st_id st_message].
  split.
  - intros (j & Hj & _ & Hid & Hm). subst j. split; assumption.
  - intros [Hm Hj]. exists i. repeat split; assumption.
Qed.

Lemma only_the_last_pair_is_suppressed_witness :
  "x" <> ""
  /\ suppressed
       (exec (LiveAnnouncerProvider.announce 7000 "Saved" (mkOptions None (Some "x")))
          exampleWorld)
       "Saved" (mkOptions None (Some "x")) = true.
Proof.
  assert (H : "x" <> "") by discriminate.
  split; [exact H |].
  apply (proj2 (only_the_last_pair_is_suppressed 7000 exampleWorld "Saved" "x"
                  "Saved" None (mkOptions None (Some "x")) H eq_refl)).
  split; reflexivity.
Defined.

(** ** Clearing and time *)

(** X6. [clearAnnouncements] is idempotent, and it commutes with the passing
    of time: clearing before or after any timers fire gives the same store
    and the same host. *)
Theorem clear_commutes_with_time (dt : Z) (w : World) :
  exec LiveAnnouncerProvider.clearAnnouncements
    (exec LiveAnnouncerProvider.clearAnnouncements w)
  = exec LiveAnnouncerProvider.clearAnnouncements w
  /\ exec LiveAnnouncerProvider.clearAnnouncements
       (exec (advanceTimersByTime dt) w)
     = exec (advanceTimersByTime dt)
         (exec LiveAnnouncerProvider.clearAnnouncements w).
Proof.
  split.
  - rewrite !exec_clearAnnouncements. reflexivity.
  - rewrite (exec_clearAnnouncements w), !exec_advanceTimersByTime. cbn zeta.
    rewrite exec_clearAnnouncements. cbn [cleared host store].
    destruct (filter (isDue (clock (host w) + dt)) (timers (host w)));
      reflexivity.
Qed.

Lemma suppressed_depends_on_store (w w' : World) (message : string)
    (options : LiveAnnouncerOptions) :
  store w = store w' ->
  suppressed w message options = suppressed w' message options.
Proof. unfold suppressed. intros E. rewrite E. reflexivity. Qed.

Lemma clock_after_advance (dt : Z) (w : World) :
  clock (host (exec (advanceTimersByTime dt) w)) = (clock (host w) + dt)%Z.
Proof.
  rewrite exec_advanceTimersByTime. cbn zeta.
  destruct (filter _ (timers (host w))); reflexivity.
Qed.

(** X7. A suppressed call does not postpone the automatic clear.  With a
    delay the host's timer holds, [0 < d <= TIMEOUT_MAX]: after an accepted
    [announce(message, { id: i })], let time [a < d] pass and repeat the call.  The repeat changes nothing, the text
    stays until [d] has passed since the first call, and at that moment the
    slots and memories are emptied. *)
Theorem suppressed_call_keeps_deadline (d a : Z) (w : World)
    (message i : string) (pr : option LiveAnnouncerPriority) :
  reachable d w -> (0 < d <= TIMEOUT_MAX)%Z -> (0 <= a < d)%Z -> i <> "" ->
  suppressed w message (mkOptions pr (Some i)) = false ->
  let call := LiveAnnouncerProvider.announce d message (mkOptions pr (Some i)) in
  let w1 := exec call w in
  let w2 := exec (advanceTimersByTime a) w1 in
  exec call w2 = w2
  /\ effects call w2 = []
  /\ (forall b, (a + b < d)%Z ->
        store (exec (advanceTimersByTime b) (exec call w2)) = store w1)
  /\ (forall b, (d <= a + b)%Z ->
        allEmpty (store (exec (advanceTimersByTime b) (exec call w2)))
        /\ memoryEmpty (store (exec (advanceTimersByTime b) (exec call w2)))).
Proof.
  intros Hr Hrange Ha Hi Hs. cbn zeta.
  assert (Hd : (0 < d)%Z) by lia.
  set (o := mkOptions pr (Some i)) in *.
  set (w1 := exec (LiveAnnouncerProvider.announce d message o) w).
  set (w2 := exec (advanceTimersByTime a) w1).
  pose proof (timerInvariant_reachable d w Hr) as Hinv.
  destruct (accepted_call_arms_one_timer d w message o Hinv Hd Hs)
    as (Ht & _ & Hc).
  rewrite (hostDelay_in_range d Hrange) in Ht.
  fold w1 in Ht, Hc.
  destruct (advance_over_one_timer a w1 _ Ht) as (Hbefore & _).
  cbn [timer_due] in Hbefore. rewrite Hc in Hbefore.
  destruct (Hbefore ltac:(lia)) as (Hstore & Htimers). fold w2 in Hstore, Htimers.
  assert (Hs1 : suppressed w1 message o = true).
  { apply suppressed_true_iff. exists i.
    pose proof (identified_call_is_remembered d w message i pr Hi) as Hrem.
    fold o in Hrem. fold w1 in Hrem. rewrite Hrem.
    split; [reflexivity |]. split; [exact Hi |]. split; reflexivity. }
  assert (Hs2 : suppressed w2 message o = true).
  { rewrite (suppressed_depends_on_store w2 w1 message o Hstore). exact Hs1. }
  assert (Hrun : exec (LiveAnnouncerProvider.announce d message o) w2 = w2).
  { unfold exec. rewrite (announce_suppressed_run d w2 message o Hs2).
    reflexivity. }
  split; [exact Hrun |].
  split.
  { unfold effects. rewrite (announce_suppressed_run d w2 message o Hs2).
    reflexivity. }
  rewrite Hrun.
  pose proof (fun b => advance_over_one_timer b w2 _ Htimers) as Hadv.
  cbn zeta in Hadv. cbn [timer_due] in Hadv.
  assert (Hclock : clock (host w2) = (clock (host w) + a)%Z).
  { unfold w2. rewrite clock_after_advance, Hc. reflexivity. }
  rewrite Hclock in Hadv.
  split.
  - intros b Hb. destruct (Hadv b) as (H1 & _).
    destruct (H1 ltac:(lia)) as (E & _). rewrite E. exact Hstore.
  - intros b Hb. destruct (Hadv b) as (_ & H2).
    destruct (H2 ltac:(lia)) as (E1 & E2 & _). split; assumption.
Qed.

Lemma suppressed_call_keeps_deadline_witness :
  reachable 1000 exampleWorld
  /\ allEmpty
       (store
          (exec (advanceTimersByTime 400)
             (exec (LiveAnnouncerProvider.announce 1000 "Saved"
                      (mkOptions None (Some "x")))
                (exec (advanceTimersByTime 600)
                   (exec (LiveAnnouncerProvider.announce 1000 "Saved"
                            (mkOptions None (Some "x"))) exampleWorld))))).
Proof.
  assert (Hr : reachable 1000 exampleWorld)
    by apply (reach_mount 1000 exampleHost).
  split; [exact Hr |].
  assert (Hi : "x" <> "") by discriminate.
  destruct (suppressed_call_keeps_deadline 1000 600 exampleWorld "Saved" "x" None
              Hr ltac:(unfold TIMEOUT_MAX; lia) ltac:(lia) Hi eq_refl)
    as (_ & _ & _ & H).
  exact (proj1 (H 400%Z ltac:(lia))).
Defined.

(** ** Unmounting the provider *)

Lemma providerUnmount_run (w : World) :
  store (exec providerUnmount w) = store w
  /\ timers (host (exec providerUnmount w))
     = match clearTimeoutRef (store w) with
       | Some h =>
           filter (fun t => negb (Pos.eqb (timer_handle t) h)) (timers (host w))
       | None => timers (host w)
       end.
Proof.
  unfold providerUnmount, exec, bind, read, clearTimeout, modifyHost, emit, ret.
  cbn. destruct (clearTimeoutRef (store w)); cbn; split; reflexivity.
Qed.

(** X8. When the provider is removed, its cleanup cancels the pending
    auto-clear timer: in every reachable state, after the cleanup no timer of
    the provider is pending, the store is as it was, and no amount of time
    passing changes it. *)
Theorem unmount_cancels_auto_clear (d : Z) (w : World) :
  reachable d w ->
  let w' := exec providerUnmount w in
  timers (host w') = []
  /\ store w' = store w
  /\ (forall dt, store (exec (advanceTimersByTime dt) w') = store w).
Proof.
  intros Hr. cbn zeta.
  pose proof (timerInvariant_reachable d w Hr) as Hinv.
  destruct (providerUnmount_run w) as (Hs & Ht).
  rewrite (cancel_named_timer d w Hinv) in Ht.
  split; [exact Ht |]. split; [exact Hs |].
  intros dt. destruct (advance_without_timers dt _ Ht) as (E & _).
  rewrite E. exact Hs.
Qed.

Lemma unmount_cancels_auto_clear_witness :
  reachable 7000
    (exec (step 7000 (EvAnnounce "Saved" (mkOptions None None))) exampleWorld)
  /\ timers
       (host (exec providerUnmount
                (exec (step 7000 (EvAnnounce "Saved" (mkOptions None None)))
                   exampleWorld)))
     = [].
Proof.
  assert (Hr : reachable 7000
                 (exec (step 7000 (EvAnnounce "Saved" (mkOptions None None)))
                    exampleWorld)).
  { apply reach_step; [apply (reach_mount 7000 exampleHost) | exact I]. }
  split; [exact Hr |].
  exact (proj1 (unmount_cancels_auto_clear 7000 _ Hr)).
Defined.

(** ** The cursor counts accepted announcements *)

Lemma accepted_step_flips_cursor (d : Z) (p : LiveAnnouncerPriority)
    (w : World) (ev : Event) :
  acceptedOn p w ev = true ->
  indexRef p (store (exec (step d ev) w)) = otherSlot (cursorSlot p (store w)).
Proof.
  destruct ev as [message options | | dt]; cbn [acceptedOn step];
    [| discriminate | discriminate].
  intros H. apply andb_true_iff in H. destruct H as [Hp Hs].
  apply priority_eqb_eq in Hp. apply negb_true_iff in Hs. subst p.
  apply (announce_accepted_channel d w message options Hs).
Qed.

(** X9. Starting from a cursor that is 0 or 1, after any run of calls and
    timer firings the cursor of a channel is its starting value plus the number
    of accepted announcements on that channel, modulo 2.  Suppressed calls,
    calls on the other channel, clears and automatic clears do not move it.
    From a fresh mount the cursor is the parity of that number. *)
Theorem cursor_is_parity_of_accepted_calls (d : Z) (p : LiveAnnouncerPriority)
    (evs : list Event) (w : World) :
  (indexRef p (store w) <= 1)%nat ->
  indexRef p (store (run d evs w))
  = ((indexRef p (store w) + acceptedCount d p evs w) mod 2)%nat.
Proof.
  revert w. induction evs as [| ev rest IH]; intros w Hle;
    cbn [run acceptedCount].
  - rewrite Nat.add_0_r.
    destruct (indexRef p (store w)) as [| [| n]]; [reflexivity | reflexivity | lia].
  - destruct (acceptedOn p w ev) eqn:Hacc.
    + pose proof (accepted_step_flips_cursor d p w ev Hacc) as Hflip.
      rewrite (cursorSlot_of_small_index p (store w) Hle) in Hflip.
      rewrite IH by (rewrite Hflip; apply otherSlot_le_1).
      rewrite Hflip.
      destruct (indexRef p (store w)) as [| [| n]]; [| | lia]; cbn [otherSlot].
      * reflexivity.
      * replace (1 + (1 + acceptedCount d p rest (exec (step d ev) w)))%nat
          with (acceptedCount d p rest (exec (step d ev) w) + 1 * 2)%nat by lia.
        rewrite Nat.Div0.mod_add. reflexivity.
    + pose proof (quiet_step_keeps_cursor d p w ev Hacc) as Hkeep.
      rewrite IH by (rewrite Hkeep; exact Hle).
      rewrite Hkeep. reflexivity.
Qed.

Lemma cursor_is_parity_of_accepted_calls_witness :
  (indexRef polite (store exampleWorld) <= 1)%nat
  /\ indexRef polite
       (store (run 7000
                 [EvAnnounce "a" (mkOptions None (Some "1"));
                  EvAnnounce "a" (mkOptions None (Some "1"));
                  EvAnnounce "Error" (mkOptions (Some assertive) None);
                  EvClear;
                  EvAnnounce "b" (mkOptions None None);
                  EvAnnounce "c" (mkOptions None None)] exampleWorld))
     = 1%nat.
Proof.
  assert (H : (indexRef polite (store exampleWorld) <= 1)%nat) by (cbn; lia).
  split; [exact H |].
  exact (cursor_is_parity_of_accepted_calls 7000 polite
           [EvAnnounce "a" (mkOptions None (Some "1"));
            EvAnnounce "a" (mkOptions None (Some "1"));
            EvAnnounce "Error" (mkOptions (Some assertive) None);
            EvClear;
            EvAnnounce "b" (mkOptions None None);
            EvAnnounce "c" (mkOptions None None)] exampleWorld H).
Defined.

(** * Further properties of the rendering and of [LiveAnnouncerMessage] *)

(** X10. After an accepted [announce] of a non-empty message with priority
    [p], exactly one rendered region with [aria-live] equal to [p] holds
    text: it holds the message, its role is [status] for a polite and [alert]
    for an assertive announcement, and it is atomic.  The regions of the other
    [aria-live] value that hold text are the same as before the call. *)
Theorem announcement_is_rendered_on_its_channel (d : Z) (w : World)
    (message : string) (options : LiveAnnouncerOptions) :
  suppressed w message options = false ->
  message <> "" ->
  let p := priorityOf options in
  let w' := exec (LiveAnnouncerProvider.announce d message options) w in
  (exists r,
     speaking p (renderedRegions w') = [r]
     /\ textContent r = message
     /\ ariaLive r = priorityName p
     /\ role r = match p with polite => "status" | assertive => "alert" end
     /\ ariaAtomic r = "true")
  /\ speaking (otherPriority p) (renderedRegions w')
     = speaking (otherPriority p) (renderedRegions w).
Proof.
  intros Hs Hne. cbn zeta.
  destruct (announce_accepted_channel d w message options Hs) as (Hk & Ho & _).
  destruct (announce_other_channel d w message options) as (H0 & H1 & _).
  apply String.eqb_neq in Hne.
  unfold speaking, renderedRegions, DoubleAnnouncer, cursorSlot, slot in *.
  destruct (priorityOf options);
    destruct (Nat.eqb _ 0);
    cbn [otherSlot otherPriority region text priorityName] in *;
    cbn [filter ariaLive textContent String.eqb Ascii.eqb Bool.eqb andb negb];
    rewrite ?Hk, ?Ho, ?H0, ?H1, ?Hne; cbn [negb andb];
    (split; [eexists; repeat split | reflexivity]).
Qed.

Lemma announcement_is_rendered_on_its_channel_witness :
  suppressed exampleWorld "Alert!" (mkOptions (Some assertive) None) = false
  /\ "Alert!" <> ""
  /\ exists r,
       speaking assertive
         (renderedRegions
            (exec (LiveAnnouncerProvider.announce 7000 "Alert!"
                     (mkOptions (Some assertive) None)) exampleWorld))
       = [r]
       /\ textContent r = "Alert!" /\ role r = "alert".
Proof.
  assert (Hne : "Alert!" <> "") by discriminate.
  split; [reflexivity |]. split; [exact Hne |].
  destruct (proj1 (announcement_is_rendered_on_its_channel 7000 exampleWorld
                     "Alert!" (mkOptions (Some assertive) None) eq_refl Hne))
    as (r & Hr & Ht & _ & Hrole & _).
  exists r. split; [exact Hr |]. split; [exact Ht | exact Hrole].
Defined.

(** What a render of [LiveAnnouncerMessage] inside a provider amounts to
    on a reachable instance: the test of the effect decides, whether or not
    React ran the effect. *)
Lemma render_outcome {S : Type} (ctx : LiveAnnouncerContextValue S)
    (announceChanged : bool) (props : LiveAnnouncerMessageProps)
    (inst : MessageInstance) (s : S) :
  instanceInvariant inst ->
  let message := prop_message props in
  let priority :=
    match prop_priority props with Some p => p | None => polite end in
  let id := prop_id props in
  exists inst',
    LiveAnnouncerMessage (Some ctx) announceChanged props inst s
    = Ok (inst',
          if shouldAnnounce message id inst
          then announce ctx message (mkOptions (Some priority) id) s
          else s)
    /\ previousMessageRef inst'
       = (if shouldAnnounce message id inst
          then message else previousMessageRef inst)
    /\ previousIdRef inst'
       = (if shouldAnnounce message id inst then id else previousIdRef inst)
    /\ (depsChanged announceChanged (lastDeps inst) message priority id = true ->
        lastDeps inst' = Some (message, priority, id))
    /\ (depsChanged announceChanged (lastDeps inst) message priority id = false ->
        inst' = inst).
Proof.
  intros Hinv. cbn zeta. unfold LiveAnnouncerMessage, announceEffect.
  cbn [useLiveAnnouncer].
  destruct (depsChanged announceChanged (lastDeps inst) (prop_message props)
              match prop_priority props with Some p => p | None => polite end
              (prop_id props)) eqn:Hdeps.
  - destruct (shouldAnnounce (prop_message props) (prop_id props) inst);
      eexists; repeat split; discriminate.
  - rewrite (skipped_effect_would_not_announce announceChanged props inst Hinv Hdeps).
    eexists; repeat split. discriminate.
Qed.

Lemma priority_eqb_refl (p : LiveAnnouncerPriority) : priority_eqb p p = true.
Proof. destruct p; reflexivity. Qed.

Lemma strict_neq_opt_refl (a : option string) : strict_neq_opt a a = false.
Proof. apply strict_neq_opt_false_iff. reflexivity. Qed.

(** After any render, the recorded dependencies agree with the props of
    that render. *)
Lemma deps_after_render {S : Type} (ctx : LiveAnnouncerContextValue S)
    (announceChanged : bool) (props : LiveAnnouncerMessageProps)
    (inst inst' : MessageInstance) (s s' : S) :
  LiveAnnouncerMessage (Some ctx) announceChanged props inst s = Ok (inst', s') ->
  depsChanged false (lastDeps inst') (prop_message props)
    match prop_priority props with Some p => p | None => polite end
    (prop_id props) = false.
Proof.
  unfold LiveAnnouncerMessage. cbn [useLiveAnnouncer].
  destruct (depsChanged announceChanged (lastDeps inst) (prop_message props)
              match prop_priority props with Some p => p | None => polite end
              (prop_id props)) eqn:Hdeps.
  - destruct (announceEffect ctx props inst s) as [i1 s1].
    intros E. inversion E; subst. cbn [lastDeps depsChanged].
    rewrite String.eqb_refl, priority_eqb_refl, strict_neq_opt_refl. reflexivity.
  - intros E. inversion E; subst.
    unfold depsChanged in *.
    destruct (lastDeps inst') as [[[m0 p0] i0] |]; [| discriminate].
    apply orb_false_iff in Hdeps. destruct Hdeps as [H _].
    rewrite H. reflexivity.
Qed.

(** X11. Rendering a [LiveAnnouncerMessage] again with the props of its last
    render never calls [announce] and leaves the instance as it is, even when
    the provider has handed out a new [announce] function in between. *)
Theorem rerender_with_same_props_is_silent (S : Type)
    (ctx ctx' : LiveAnnouncerContextValue S) (announceChanged announceChanged' : bool)
    (props : LiveAnnouncerMessageProps) (inst inst1 : MessageInstance)
    (s s1 t : S) :
  instanceReachable inst ->
  LiveAnnouncerMessage (Some ctx) announceChanged props inst s = Ok (inst1, s1) ->
  LiveAnnouncerMessage (Some ctx') announceChanged' props inst1 t = Ok (inst1, t).
Proof.
  intros Hr Hrender.
  assert (Hinv1 : instanceInvariant inst1).
  { apply instanceInvariant_reachable.
    exact (ir_render S ctx announceChanged props inst inst1 s s1 Hr Hrender). }
  pose proof (deps_after_render ctx announceChanged props inst inst1 s s1 Hrender)
    as Hdeps.
  pose proof (skipped_effect_would_not_announce false props inst1 Hinv1 Hdeps)
    as Hno.
  destruct (render_outcome ctx' announceChanged' props inst1 t Hinv1)
    as (inst2 & E & Hm & Hi & Hrun & Hskip).
  cbn zeta in *. rewrite Hno in E, Hm, Hi. rewrite E. f_equal. f_equal.
  destruct (depsChanged announceChanged' (lastDeps inst1) (prop_message props)
              match prop_priority props with Some p => p | None => polite end
              (prop_id props)) eqn:Hd.
  - specialize (Hrun eq_refl).
    destruct inst1 as [pm pi ld], inst2 as [pm2 pi2 ld2].
    cbn [previousMessageRef previousIdRef lastDeps] in *.
    subst pm2 pi2 ld2. f_equal.
    unfold depsChanged in Hdeps.
    destruct ld as [[[m0 p0] i0] |]; [| discriminate].
    apply orb_false_iff in Hdeps. destruct Hdeps as [Hdeps _].
    apply orb_false_iff in Hdeps. destruct Hdeps as [Hdeps Hi0].
    apply orb_false_iff in Hdeps. destruct Hdeps as [Hm0 Hp0].
    apply negb_false_iff, String.eqb_eq in Hm0.
    apply negb_false_iff, priority_eqb_eq in Hp0.
    apply strict_neq_opt_false_iff in Hi0. subst. reflexivity.
  - exact (Hskip eq_refl).
Qed.

Lemma rerender_with_same_props_is_silent_witness :
  instanceReachable initialInstance
  /\ LiveAnnouncerMessage (Some spyContext) true
       (mkMessageProps "First" None None None)
       (mkMessageInstance "First" None (Some ("First", polite, None)))
       [CallAnnounce "First" (mkOptions (Some polite) None)]
     = Ok (mkMessageInstance "First" None (Some ("First", polite, None)),
           [CallAnnounce "First" (mkOptions (Some polite) None)]).
Proof.
  split; [exact ir_mount |].
  exact (rerender_with_same_props_is_silent (list Call) spyContext spyContext
           false true (mkMessageProps "First" None None None) initialInstance
           (mkMessageInstance "First" None (Some ("First", polite, None)))
           [] [CallAnnounce "First" (mkOptions (Some polite) None)]
           [CallAnnounce "First" (mkOptions (Some polite) None)]
           ir_mount eq_refl).
Defined.

(** X12. An empty message is never announced and does not touch the refs.
    So when a message that was announced is replaced by the empty string and
    then comes back with the same identifier, neither render calls
    [announce]: the returning message is not announced again. *)
Theorem blanked_message_is_not_reannounced (S : Type)
    (ctx : LiveAnnouncerContextValue S) (c1 c2 : bool)
    (blank back : LiveAnnouncerMessageProps) (inst : MessageInstance) (s : S) :
  instanceReachable inst ->
  prop_message blank = "" ->
  prop_message back = previousMessageRef inst ->
  prop_id back = previousIdRef inst ->
  exists inst1 inst2,
    LiveAnnouncerMessage (Some ctx) c1 blank inst s = Ok (inst1, s)
    /\ LiveAnnouncerMessage (Some ctx) c2 back inst1 s = Ok (inst2, s)
    /\ previousMessageRef inst2 = previousMessageRef inst
    /\ previousIdRef inst2 = previousIdRef inst.
Proof.
  intros Hr Hblank Hm Hi.
  pose proof (instanceInvariant_reachable inst Hr) as Hinv.
  destruct (render_outcome ctx c1 blank inst s Hinv)
    as (inst1 & E1 & Hm1 & Hi1 & _).
  cbn zeta in *.
  assert (Hno1 : shouldAnnounce (prop_message blank) (prop_id blank) inst = false).
  { unfold shouldAnnounce. rewrite Hblank. reflexivity. }
  rewrite Hno1 in E1, Hm1, Hi1.
  assert (Hinv1 : instanceInvariant inst1).
  { exact (instanceInvariant_render ctx c1 blank inst inst1 s s Hinv E1). }
  destruct (render_outcome ctx c2 back inst1 s Hinv1)
    as (inst2 & E2 & Hm2 & Hi2 & _).
  cbn zeta in *.
  assert (Hno2 : shouldAnnounce (prop_message back) (prop_id back) inst1 = false).
  { unfold shouldAnnounce. rewrite Hm1, Hi1, Hm, Hi, String.eqb_refl,
      strict_neq_opt_refl. apply andb_false_r. }
  rewrite Hno2 in E2, Hm2, Hi2.
  exists inst1, inst2. split; [exact E1 |]. split; [exact E2 |].
  split; congruence.
Qed.

Lemma blanked_message_is_not_reannounced_witness :
  instanceReachable
    (mkMessageInstance "Error" None (Some ("Error", polite, None)))
  /\ exists inst1 inst2,
       LiveAnnouncerMessage (Some spyContext) false
         (mkMessageProps "" None None None)
         (mkMessageInstance "Error" None (Some ("Error", polite, None))) []
       = Ok (inst1, [])
       /\ LiveAnnouncerMessage (Some spyContext) false
            (mkMessageProps "Error" None None None) inst1 []
          = Ok (inst2, []).
Proof.
  assert (Hr : instanceReachable
                 (mkMessageInstance "Error" None (Some ("Error", polite, None)))).
  { exact (ir_render (list Call) spyContext false
             (mkMessageProps "Error" None None None) initialInstance _ [] _
             ir_mount eq_refl). }
  split; [exact Hr |].
  destruct (blanked_message_is_not_reannounced (list Call) spyContext false false
              (mkMessageProps "" None None None)
              (mkMessageProps "Error" None None None) _ [] Hr
              eq_refl eq_refl eq_refl)
    as (inst1 & inst2 & E1 & E2 & _).
  exists inst1, inst2. split; [exact E1 | exact E2].
Defined.

Lemma nothing_is_suppressed_after_clear (w : World) (message : string)
    (options : LiveAnnouncerOptions) :
  suppressed (cleared w) message options = false.
Proof.
  apply suppressed_false_iff. intros (i & _ & Hne & Hid & _).
  apply Hne. rewrite Hid, lastRef_cleared. reflexivity.
Qed.

Lemma slot_cleared (p : LiveAnnouncerPriority) (i : nat) (w : World) :
  slot p i (store (cleared w)) = "".
Proof. destruct p, i; reflexivity. Qed.

(** X13. When a mounted [LiveAnnouncerMessage] inside a provider is
    re-rendered with [clearOnUnmount] switched from true to false (or left
    out) and with a message it has to announce, the cleanup of its second
    effect clears all announcements first and the new message is announced
    after that: at the end the message is in the slot under the cursor of its
    channel, every other slot is empty, and the cleanup now registered no
    longer clears. *)
Theorem dropping_clearOnUnmount_clears_then_announces (d : Z)
    (announceChanged clearChanged : bool) (props : LiveAnnouncerMessageProps)
    (inst : MessageInstance) (w : World) :
  instanceReachable inst ->
  shouldAnnounce (prop_message props) (prop_id props) inst = true ->
  match prop_clearOnUnmount props with Some b => b | None => false end = false ->
  let ctx := contextValue d in
  let p := match prop_priority props with Some p => p | None => polite end in
  let options := mkOptions (Some p) (prop_id props) in
  let k := cursorSlot p (store w) in
  let w' :=
    exec (LiveAnnouncerProvider.announce d (prop_message props) options)
      (exec LiveAnnouncerProvider.clearAnnouncements w) in
  exists inst' cleanup',
    LiveAnnouncerMessage_commit (Some ctx) announceChanged clearChanged props inst
      (Some (mkCleanup true (clearAnnouncements ctx))) w
    = Ok (inst', cleanup', w')
    /\ captured_clearOnUnmount cleanup' = false
    /\ slot p k (store w') = prop_message props
    /\ slot p (otherSlot k) (store w') = ""
    /\ slot (otherPriority p) 0 (store w') = ""
    /\ slot (otherPriority p) 1 (store w') = "".
Proof.
  intros Hr Hsh Hoff. cbn zeta.
  pose proof (instanceInvariant_reachable inst Hr) as Hinv.
  unfold LiveAnnouncerMessage_commit. cbn [useLiveAnnouncer].
  unfold clearOnUnmountEffect. rewrite Hoff.
  cbn [captured_clearOnUnmount Bool.eqb negb orb runCleanup
       captured_clearAnnouncements].
  cbn [clearAnnouncements contextValue].
  destruct (render_outcome (contextValue d) announceChanged props inst
              (exec LiveAnnouncerProvider.clearAnnouncements w) Hinv)
    as (inst' & E & _).
  cbn zeta in E. rewrite Hsh in E. cbn [announce contextValue] in E.
  rewrite E.
  exists inst', (mkCleanup false (exec LiveAnnouncerProvider.clearAnnouncements)).
  split; [reflexivity |]. split; [reflexivity |].
  rewrite exec_clearAnnouncements.
  set (o := mkOptions
              (Some match prop_priority props with Some p => p | None => polite end)
              (prop_id props)).
  pose proof (nothing_is_suppressed_after_clear w (prop_message props) o) as Hs.
  destruct (announce_accepted_channel d (cleared w) (prop_message props) o Hs)
    as (Hk & Ho & _).
  destruct (announce_other_channel d (cleared w) (prop_message props) o)
    as (H0 & H1 & _).
  change (priorityOf o)
    with (match prop_priority props with Some p => p | None => polite end)
    in Hk, Ho, H0, H1.
  assert (Hc : forall q, cursorSlot q (store (cleared w)) = cursorSlot q (store w)).
  { intros q. unfold cursorSlot. rewrite indexRef_cleared. reflexivity. }
  rewrite Hc in Hk, Ho. rewrite !slot_cleared in H0, H1.
  repeat split; assumption.
Qed.

Lemma dropping_clearOnUnmount_clears_then_announces_witness :
  instanceReachable
    (mkMessageInstance "First" None (Some ("First", polite, None)))
  /\ exists inst' cleanup',
       LiveAnnouncerMessage_commit (Some (contextValue 0)) false false
         (mkMessageProps "Saved" None None None)
         (mkMessageInstance "First" None (Some ("First", polite, None)))
         (Some (mkCleanup true (clearAnnouncements (contextValue 0))))
         (exec (LiveAnnouncerProvider.announce 0 "First"
                  (mkOptions (Some polite) None)) exampleWorld)
       = Ok (inst', cleanup',
             exec (LiveAnnouncerProvider.announce 0 "Saved"
                     (mkOptions (Some polite) None))
               (exec LiveAnnouncerProvider.clearAnnouncements
                  (exec (LiveAnnouncerProvider.announce 0 "First"
                           (mkOptions (Some polite) None)) exampleWorld)))
       /\ captured_clearOnUnmount cleanup' = false.
Proof.
  assert (Hr : instanceReachable
                 (mkMessageInstance "First" None (Some ("First", polite, None)))).
  { exact (ir_render World (contextValue 0) false
             (mkMessageProps "First" None None (Some true)) initialInstance _
             exampleWorld _ ir_mount eq_refl). }
  split; [exact Hr |].
  destruct (dropping_clearOnUnmount_clears_then_announces 0 false false
              (mkMessageProps "Saved" None None None) _
              (exec (LiveAnnouncerProvider.announce 0 "First"
                       (mkOptions (Some polite) None)) exampleWorld)
              Hr eq_refl eq_refl)
    as (inst' & cleanup' & E & Hc & _).
  exists inst', cleanup'. split; [exact E | exact Hc].
Defined.
